(** * MiniFS: an in-memory filesystem-like data structure

    A shallow embedding of [src/index.ts] (and of the callback variant of
    [writeFile] kept in [src/unnamed/part_000]) together with the properties
    stated about it.

    The store owns one tree of nodes.  Every loop of the source walks a
    path through that tree while holding a reference [dir] to the current
    directory object; the embedding threads the directory through the
    recursion and writes the (possibly mutated) child back into its parent,
    at the position the property already has. *)

From Stdlib Require Import String Ascii List Bool NArith.
From Stdlib Require Import Permutation.
Import ListNotations.
Local Open Scope string_scope.
Local Open Scope list_scope.

(** ** Paths *)

(** [type Path = string | PathSegments]. *)
Inductive Path : Type :=
  | PString (s : string)
  | PSegments (segments : list string).

(** [export const rootPath = []]. *)
Definition rootPath : list string := [].

(** [String.prototype.split] with a one-character separator: the pieces
    between consecutive separators, empty pieces included; a string without
    separator (the empty string too) is the single piece. A JavaScript
    string is a sequence of UTF-16 code units and a [string] here a sequence
    of bytes; the separator of the source is ASCII, so the pieces agree. *)
Fixpoint split (sep : ascii) (s : string) : list string :=
  match s with
  | EmptyString => [EmptyString]
  | String c s' =>
      if Ascii.eqb c sep then EmptyString :: split sep s'
      else match split sep s' with
           | [] => [String c EmptyString]
           | piece :: pieces => String c piece :: pieces
           end
  end.

(** [function pathAsSegments(path)]:
    [typeof path == "string" ? path.split("/") : path]. *)
Definition pathAsSegments (path : Path) : list string :=
  match path with
  | PString s => split "/" s
  | PSegments segments => segments
  end.

(** [Array.prototype.join] / the string a template literal gives an array. *)
Definition join (sep : string) (l : list string) : string := String.concat sep l.

(** The text [`${path}`] of a [Path]. *)
Definition render (path : Path) : string :=
  match path with
  | PString s => s
  | PSegments segments => join "," segments
  end.

(** Number of occurrences of a character, and whether it occurs. *)
Fixpoint count_char (c : ascii) (s : string) : nat :=
  match s with
  | EmptyString => 0
  | String a s' => (if Ascii.eqb a c then 1 else 0) + count_char c s'
  end.

Definition no_char (c : ascii) (s : string) : bool := Nat.eqb (count_char c s) 0.

(** ** Results *)

(** The methods that raise, as the source names them in its messages. *)
Inductive Method : Type :=
  | MiniFS_createDirectory
  | MiniFS_readEntry
  | MiniFS_readDirectory
  | MiniFS_readFile
  | MiniFS_writeFile
  | MiniFS__writeFile
  | MiniFS_removeDirectory.

(** The messages of the source, by their wording. *)
Inductive Complaint : Type :=
  | Directory_does_not_exist      (* Directory "<segment>" does not exist. *)
  | is_a_file                     (* "<segment or path>" is a file. *)
  | Intermediate_is_a_file        (* Intermediate path segment "<path>" is a file. *)
  | Intermediate_does_not_exist   (* Intermediate path segment "<segment>" does not exist. *)
  | does_not_exist                (* "<path>" does not exist. *)
  | has_no_content                (* "<path>" has no content. *)
  | is_a_directory.               (* "<path>" is a directory. *)

(** [new Error(`[<method>] ... "<subject>" ...`)]. *)
Record Error : Type := mkError {
  method : Method;
  complaint : Complaint;
  subject : string
}.

(** How a call ends: it returns, it throws one of the errors above, or the
    runtime raises a [TypeError] ([k in undefined], [Object.keys(undefined)],
    a property read on [undefined]). *)
Inductive Outcome (A : Type) : Type :=
  | Return (a : A)
  | Throw (e : Error)
  | TypeError.

Arguments Return {A} a.
Arguments Throw {A} e.
Arguments TypeError {A}.

(** [if (this.preferErrors) throw new Error(...); return sentinel]. *)
Definition fail {A : Type} (preferErrors : bool) (m : Method) (c : Complaint)
    (subject : string) (sentinel : A) : Outcome A :=
  if preferErrors then Throw (mkError m c subject) else Return sentinel.

(** ** Options *)

Record MiniFSOptions : Type := { opt_preferErrors : option bool }.
Record ReadOptions : Type := { returnEntry : option bool }.
Record WriteOptions : Type := { recursive : option bool }.

(** [{ returnEntry: false, ...options }] and [{ recursive: true, ...options }]. *)
Definition get_returnEntry (options : option ReadOptions) : bool :=
  match options with
  | Some {| returnEntry := Some b |} => b
  | _ => false
  end.
Definition get_recursive (options : option WriteOptions) : bool :=
  match options with
  | Some {| recursive := Some b |} => b
  | _ => true
  end.

(** ** Names every object inherits, and array indices *)

(** The property names of [Object.prototype] (ECMAScript, with Annex B). *)
Definition Object_prototype_names : list string :=
  [ "constructor"; "hasOwnProperty"; "isPrototypeOf"; "propertyIsEnumerable";
    "toLocaleString"; "toString"; "valueOf"; "__proto__";
    "__defineGetter__"; "__defineSetter__"; "__lookupGetter__";
    "__lookupSetter__" ].

Definition inherited (k : string) : bool :=
  existsb (String.eqb k) Object_prototype_names.

Definition digit (a : ascii) : option N :=
  let n := N_of_ascii a in
  if (48 <=? n)%N && (n <=? 57)%N then Some (n - 48)%N else None.

Fixpoint digits_value (s : string) (acc : N) : option N :=
  match s with
  | EmptyString => Some acc
  | String a s' =>
      match digit a with
      | Some d => digits_value s' (10 * acc + d)%N
      | None => None
      end
  end.

(** The array index a key denotes: a canonical decimal numeral (no leading
    zero) below 2^32 - 1. *)
Definition array_index (k : string) : option N :=
  match k with
  | EmptyString => None
  | String a rest =>
      if Ascii.eqb a "0" && negb (String.eqb rest EmptyString) then None
      else match digits_value k 0 with
           | Some n => if (n <? 4294967295)%N then Some n else None
           | None => None
           end
  end.

(** ** Nodes *)

Section Model.

Context {TFileContent TData : Type}.

(** The optional [content] of a file: [undefined] when the file was made
    without content, otherwise the payload; [null] is a payload JavaScript
    code can pass for [unknown], and the only one [== undefined] besides
    [undefined] itself. *)
Inductive Content : Type :=
  | Undefined
  | Null
  | Payload (c : TFileContent).

(** [content == undefined]. *)
Definition eq_undefined (c : Content) : bool :=
  match c with
  | Undefined | Null => true
  | Payload _ => false
  end.

(** [class File extends Node]: [name], [content] and the [data] slot of
    [Node]. [None] is the slot as the constructor leaves it ([{}] in
    [src/index.ts], [undefined] in [part_000]). *)
Record File : Type := mkFile {
  fname : string;
  fcontent : Content;
  fdata : option TData
}.

(** [type Entry = File | Directory] and [class Directory extends Node]. The
    directory's [content] object is the list of its own properties in
    creation order; [name] is absent in [src/index.ts] and set by the
    constructor in [part_000]. *)
Inductive Entry : Type :=
  | EFile (f : File)
  | EDirectory (d : Directory)
with Directory : Type :=
  | mkDirectory (name : option string) (content : list (string * Entry))
                (data : option TData).

Definition DirectoryContent : Type := list (string * Entry).

Definition dname (d : Directory) : option string :=
  match d with mkDirectory n _ _ => n end.
Definition dcontent (d : Directory) : DirectoryContent :=
  match d with mkDirectory _ c _ => c end.
Definition ddata (d : Directory) : option TData :=
  match d with mkDirectory _ _ x => x end.

(** The directory object with its [content] object in a new state. *)
Definition with_content (d : Directory) (c : DirectoryContent) : Directory :=
  mkDirectory (dname d) c (ddata d).

(** [new File(name, content)]. *)
Definition new_File (name : string) (content : Content) : File :=
  mkFile name content None.

(** [new Directory()] of [src/index.ts] ([name = None]) and
    [new Directory(name)] of [part_000]; [content || {}] is the empty object. *)
Definition new_Directory (name : option string) : Directory :=
  mkDirectory name [] None.

(** ** The [content] object of a directory

    [content] is an ordinary object: [k in content] and [content[k]] see its
    own properties and those it inherits from [Object.prototype]. *)

(** The own property [k] of the object. *)
Fixpoint own (c : DirectoryContent) (k : string) : option Entry :=
  match c with
  | [] => None
  | (k', e) :: c' => if String.eqb k' k then Some e else own c' k
  end.

(** What a variable of the source can hold where the types say [Entry]:
    an entry, [undefined], [null] (the sentinel of [readEntry]), or a member
    of [Object.prototype] (a function, or the prototype object itself for
    [__proto__]) -- a value that is neither a [File] nor a [Directory] and
    whose [content] is [undefined]. *)
Inductive Value : Type :=
  | VUndefined
  | VNull
  | VEntry (e : Entry)
  | VInherited.

(** [k in content]. *)
Definition has_property (c : DirectoryContent) (k : string) : bool :=
  match own c k with
  | Some _ => true
  | None => inherited k
  end.

(** [content[k]]. *)
Definition get (c : DirectoryContent) (k : string) : Value :=
  match own c k with
  | Some e => VEntry e
  | None => if inherited k then VInherited else VUndefined
  end.

(** [content[k] = e]: an existing own property keeps its place, a new one
    comes last. (The source assigns only under [!(k in content)], so never
    to a name of [Object.prototype].) *)
Fixpoint set (c : DirectoryContent) (k : string) (e : Entry) : DirectoryContent :=
  match c with
  | [] => [(k, e)]
  | (k', e') :: c' =>
      if String.eqb k' k then (k', e) :: c' else (k', e') :: set c' k e
  end.

(** [delete content[k]]. *)
Definition delete (c : DirectoryContent) (k : string) : DirectoryContent :=
  filter (fun p => negb (String.eqb (fst p) k)) c.

(** [entry instanceof File], [entry instanceof Directory] and the truthiness
    of [if (entry)]. *)
Definition instanceof_File (v : Value) : bool :=
  match v with VEntry (EFile _) => true | _ => false end.
Definition instanceof_Directory (v : Value) : bool :=
  match v with VEntry (EDirectory _) => true | _ => false end.
Definition truthy (v : Value) : bool :=
  match v with VUndefined | VNull => false | _ => true end.

(** *** Property order

    [Object.keys] and [Object.entries] list the own properties that are
    array indices first, in ascending numeric order, then the other string
    keys in creation order. *)

Section Order.
Context {A : Type}.
Variable key : A -> string.

Fixpoint insert_index (n : N) (x : A) (l : list (N * A)) : list (N * A) :=
  match l with
  | [] => [(n, x)]
  | (m, y) :: l' =>
      if (n <? m)%N then (n, x) :: l else (m, y) :: insert_index n x l'
  end.

Fixpoint indexed (l : list A) : list (N * A) :=
  match l with
  | [] => []
  | x :: l' =>
      match array_index (key x) with
      | Some n => insert_index n x (indexed l')
      | None => indexed l'
      end
  end.

Definition is_index (x : A) : bool :=
  match array_index (key x) with Some _ => true | None => false end.

(** The order in which the properties are enumerated. *)
Definition property_order (l : list A) : list A :=
  map snd (indexed l) ++ filter (fun x => negb (is_index x)) l.
End Order.

(** [Object.keys(content)]. *)
Definition Object_keys (c : DirectoryContent) : list string :=
  map fst (property_order fst c).

(** ** The store *)

(** [class MiniFS]: the fields [files] and [preferErrors]. *)
Record MiniFS : Type := mkMiniFS {
  files : Directory;
  preferErrors : bool
}.

Definition with_files (this : MiniFS) (d : Directory) : MiniFS :=
  mkMiniFS d (preferErrors this).

(** [constructor(options?)] of [src/index.ts]:
    [files = new Directory()], [preferErrors = options?.preferErrors ?? false]. *)
Definition constructor (options : option MiniFSOptions) : MiniFS :=
  mkMiniFS (new_Directory None)
           (match options with
            | Some {| opt_preferErrors := Some b |} => b
            | _ => false
            end).

(** ** The walks of [src/index.ts]

    Each loop body is one step of a recursion on the remaining segments;
    [isLastSegment] ([i == path.length - 1]) holds when no segment remains
    after the current one. *)

Definition isLast (rest : list string) : bool :=
  match rest with [] => true | _ :: _ => false end.

(** The loop goes on with [dir] bound to a value that is no directory
    ([dir = nextEntry] with an inherited member or [undefined]): with no
    segment left the loop ends and the method returns [true]; otherwise the
    next test [k in dir.content] raises a [TypeError]. *)
Definition off_tree (rest : list string) : Outcome bool :=
  match rest with [] => Return true | _ :: _ => TypeError end.

(** The loop of [createDirectory]. *)
Fixpoint createDirectory_loop (preferErrors recursive : bool)
    (path : list string) (dir : Directory) {struct path}
    : Outcome bool * Directory :=
  match path with
  | [] => (Return true, dir)
  | pathSegment :: rest =>
      let step := fun dir : Directory =>
        match get (dcontent dir) pathSegment with
        | VEntry (EFile _) =>
            (fail preferErrors MiniFS_createDirectory is_a_file pathSegment false, dir)
        | VEntry (EDirectory nextEntry) =>
            let '(r, nextEntry') :=
              createDirectory_loop preferErrors recursive rest nextEntry in
            (r, with_content dir (set (dcontent dir) pathSegment (EDirectory nextEntry')))
        | _ => (off_tree rest, dir)
        end in
      if negb (has_property (dcontent dir) pathSegment) then
        if recursive then
          step (with_content dir
                  (set (dcontent dir) pathSegment (EDirectory (new_Directory None))))
        else
          (fail preferErrors MiniFS_createDirectory Directory_does_not_exist
                pathSegment false, dir)
      else step dir
  end.

(** [createDirectory(path, options?)]. *)
Definition createDirectory (path : Path) (options : option WriteOptions)
    (this : MiniFS) : Outcome bool * MiniFS :=
  let path := pathAsSegments path in
  let recursive := get_recursive options in
  let '(r, dir) := createDirectory_loop (preferErrors this) recursive path (files this) in
  (r, with_files this dir).

(** The loop of [readEntry]; [whole] is the segment array, which the first
    message prints ([`${path}`], the segments joined by commas). *)
Fixpoint readEntry_loop (preferErrors : bool) (whole path : list string)
    (entry : Value) {struct path} : Outcome Value :=
  match path with
  | [] => Return entry
  | pathSegment :: rest =>
      match entry with
      | VEntry (EFile _) =>
          fail preferErrors MiniFS_readEntry Intermediate_is_a_file
               (join "," whole) VNull
      | VEntry (EDirectory dir) =>
          if negb (has_property (dcontent dir) pathSegment) then
            fail preferErrors MiniFS_readEntry Intermediate_does_not_exist
                 pathSegment VNull
          else
            readEntry_loop preferErrors whole rest (get (dcontent dir) pathSegment)
      | _ => TypeError
      end
  end.

(** [readEntry(path)]. *)
Definition readEntry (path : Path) (this : MiniFS) : Outcome Value * MiniFS :=
  let path := pathAsSegments path in
  (readEntry_loop (preferErrors this) path path (VEntry (EDirectory (files this))),
   this).

(** What [readDirectory] returns: [null], the entry, or the names. *)
Inductive ReadDirectoryResult : Type :=
  | RD_null
  | RD_entry (v : Value)
  | RD_names (names : list string).

(** [readDirectory(path, options?)]. *)
Definition readDirectory (path : Path) (options : option ReadOptions)
    (this : MiniFS) : Outcome ReadDirectoryResult * MiniFS :=
  match readEntry path this with
  | (Throw e, this) => (Throw e, this)
  | (TypeError, this) => (TypeError, this)
  | (Return entry, this) =>
      let returnEntry := get_returnEntry options in
      if instanceof_File entry then
        (fail (preferErrors this) MiniFS_readDirectory is_a_file (render path) RD_null,
         this)
      else if truthy entry then
        if returnEntry then (Return (RD_entry entry), this)
        else match entry with
             | VEntry (EDirectory dir) =>
                 (Return (RD_names (Object_keys (dcontent dir))), this)
             | _ => (TypeError, this)
             end
      else
        (fail (preferErrors this) MiniFS_readDirectory does_not_exist (render path)
              RD_null, this)
  end.

(** What [readFile] returns: [null], the file entry, or its content. *)
Inductive ReadFileResult : Type :=
  | RF_null
  | RF_entry (f : File)
  | RF_content (c : Content).

(** [readFile(path, options?)]. *)
Definition readFile (path : Path) (options : option ReadOptions)
    (this : MiniFS) : Outcome ReadFileResult * MiniFS :=
  match readEntry path this with
  | (Throw e, this) => (Throw e, this)
  | (TypeError, this) => (TypeError, this)
  | (Return entry, this) =>
      let returnEntry := get_returnEntry options in
      match entry with
      | VEntry (EFile file) =>
          if eq_undefined (fcontent file) then
            (fail (preferErrors this) MiniFS_readFile has_no_content (render path)
                  RF_null, this)
          else if returnEntry then (Return (RF_entry file), this)
          else (Return (RF_content (fcontent file)), this)
      | _ =>
          if negb (truthy entry) then
            (fail (preferErrors this) MiniFS_readFile does_not_exist (render path)
                  RF_null, this)
          else
            (fail (preferErrors this) MiniFS_readFile is_a_directory (render path)
                  RF_null, this)
      end
  end.

(** The loop of [writeFile]. *)
Fixpoint writeFile_loop (preferErrors recursive : bool) (content : Content)
    (path : list string) (dir : Directory) {struct path}
    : Outcome bool * Directory :=
  match path with
  | [] => (Return true, dir)
  | pathSegment :: rest =>
      let isLastSegment := isLast rest in
      let step := fun dir : Directory =>
        match get (dcontent dir) pathSegment with
        | VEntry (EFile _) =>
            (fail preferErrors MiniFS_writeFile is_a_file pathSegment false, dir)
        | VEntry (EDirectory nextEntry) =>
            let '(r, nextEntry') :=
              writeFile_loop preferErrors recursive content rest nextEntry in
            (r, with_content dir (set (dcontent dir) pathSegment (EDirectory nextEntry')))
        | _ => (off_tree rest, dir)
        end in
      if negb (has_property (dcontent dir) pathSegment) then
        if recursive then
          if isLastSegment then
            (Return true,
             with_content dir
               (set (dcontent dir) pathSegment (EFile (new_File pathSegment content))))
          else
            step (with_content dir
                    (set (dcontent dir) pathSegment (EDirectory (new_Directory None))))
        else
          (fail preferErrors MiniFS_writeFile Directory_does_not_exist
                pathSegment false, dir)
      else step dir
  end.

(** [writeFile(path, content?, options?)]. *)
Definition writeFile (path : Path) (content : Content)
    (options : option WriteOptions) (this : MiniFS) : Outcome bool * MiniFS :=
  let path := pathAsSegments path in
  let recursive := get_recursive options in
  let '(r, dir) :=
    writeFile_loop (preferErrors this) recursive content path (files this) in
  (r, with_files this dir).

(** The loop of [remove]. *)
Fixpoint remove_loop (preferErrors : bool) (path : list string)
    (dir : Directory) {struct path} : Outcome bool * Directory :=
  match path with
  | [] => (Return true, dir)
  | pathSegment :: rest =>
      let isLastSegment := isLast rest in
      if negb (has_property (dcontent dir) pathSegment) then
        (fail preferErrors MiniFS_removeDirectory Directory_does_not_exist
              pathSegment false, dir)
      else
        match get (dcontent dir) pathSegment with
        | VEntry (EFile _) =>
            (fail preferErrors MiniFS_removeDirectory is_a_file pathSegment false, dir)
        | nextEntry =>
            if isLastSegment then
              (Return true, with_content dir (delete (dcontent dir) pathSegment))
            else
              match nextEntry with
              | VEntry (EDirectory nextEntry) =>
                  let '(r, nextEntry') := remove_loop preferErrors rest nextEntry in
                  (r, with_content dir
                        (set (dcontent dir) pathSegment (EDirectory nextEntry')))
              | _ => (TypeError, dir)
              end
        end
  end.

(** [remove(path)]. *)
Definition remove (path : Path) (this : MiniFS) : Outcome bool * MiniFS :=
  let path := pathAsSegments path in
  let '(r, dir) := remove_loop (preferErrors this) path (files this) in
  (r, with_files this dir).

(** [*walk(dir = this.files, path = [])], run to its end: the pairs it
    yields, in order. The children come in the order of
    [Object.entries(dir.content)]; each child is followed by what the walk of
    its subtree yields. *)
Fixpoint walk_from (dir : Directory) (path : list string) {struct dir}
    : list (list string * Entry) :=
  match dir with
  | mkDirectory _ content _ =>
      let fix each (l : DirectoryContent)
          : list (string * list (list string * Entry)) :=
        match l with
        | [] => []
        | (name, entry) :: l' =>
            let entryPath := path ++ [name] in
            (name,
             (entryPath, entry) ::
               match entry with
               | EDirectory d => walk_from d entryPath
               | EFile _ => []
               end) :: each l'
        end in
      concat (map snd (property_order fst (each content)))
  end.

Definition walk (this : MiniFS) : list (list string * Entry) * MiniFS :=
  (walk_from (files this) [], this).

End Model.

(** ** The callback variant of [writeFile] ([src/unnamed/part_000])

    The later revision of the store names its directories, hands the file to
    a caller-supplied callback, and builds [writeFile] and
    [writeFileWithCallback] on the private [_writeFile]. Its other methods
    are those of [src/index.ts]. *)
Module Part000.
Section Callback.

Context {TFileContent TData : Type}.
Local Abbreviation File := (@File TFileContent TData).
Local Abbreviation Directory := (@Directory TFileContent TData).
Local Abbreviation Content := (@Content TFileContent).
Local Abbreviation MiniFS := (@MiniFS TFileContent TData).

(** [interface WriteCallback { (file: File): void }]: the callback mutates
    the file it is given; here it maps the file to the file it has become. *)
Definition WriteCallback : Type := File -> File.

(** [constructor(options?)]: [files = new Directory("")]. *)
Definition constructor (options : option MiniFSOptions) : MiniFS :=
  mkMiniFS (new_Directory (Some ""))
           (match options with
            | Some {| opt_preferErrors := Some b |} => b
            | _ => false
            end).

(** The loop of [_writeFile]. The test [pathSegment in dir.content] of the
    last segment sits, as in the source, inside the branch taken when
    [pathSegment] is not in [dir.content]. *)
Fixpoint _writeFile_loop (preferErrors recursive : bool) (callback : WriteCallback)
    (whole path : list string) (dir : Directory) {struct path}
    : Outcome bool * Directory :=
  match path with
  | [] => (Return true, dir)
  | pathSegment :: rest =>
      let isLastSegment := isLast rest in
      let step := fun dir : Directory =>
        match get (dcontent dir) pathSegment with
        | VEntry (EFile _) =>
            (fail preferErrors MiniFS__writeFile is_a_file pathSegment false, dir)
        | VEntry (EDirectory nextEntry) =>
            let '(r, nextEntry') :=
              _writeFile_loop preferErrors recursive callback whole rest nextEntry in
            (r, with_content dir (set (dcontent dir) pathSegment (EDirectory nextEntry')))
        | _ => (off_tree rest, dir)
        end in
      if negb (has_property (dcontent dir) pathSegment) then
        if recursive then
          if isLastSegment then
            if has_property (dcontent dir) pathSegment then
              match get (dcontent dir) pathSegment with
              | VEntry (EFile entry) =>
                  (Return true,
                   with_content dir
                     (set (dcontent dir) pathSegment (EFile (callback entry))))
              | VEntry (EDirectory _) =>
                  (fail preferErrors MiniFS__writeFile is_a_directory
                        (join "/" whole) false, dir)
              | _ => (TypeError, dir)
              end
            else
              (Return true,
               with_content dir
                 (set (dcontent dir) pathSegment
                    (EFile (callback (new_File pathSegment Undefined)))))
          else
            step (with_content dir
                    (set (dcontent dir) pathSegment
                       (EDirectory (new_Directory (Some pathSegment)))))
        else
          (fail preferErrors MiniFS__writeFile Directory_does_not_exist
                pathSegment false, dir)
      else step dir
  end.

(** [_writeFile(path, callback, options)]. *)
Definition _writeFile (path : list string) (callback : WriteCallback)
    (options_recursive : bool) (this : MiniFS) : Outcome bool * MiniFS :=
  let '(r, dir) :=
    _writeFile_loop (preferErrors this) options_recursive callback path path
                    (files this) in
  (r, with_files this dir).

(** [writeFile(path, content?, options?)]: the callback is
    [(file) => { file.content = content; }]. *)
Definition writeFile (path : Path) (content : Content)
    (options : option WriteOptions) (this : MiniFS) : Outcome bool * MiniFS :=
  _writeFile (pathAsSegments path)
             (fun file => mkFile (fname file) content (fdata file))
             (get_recursive options) this.

(** [writeFileWithCallback(path, callback, options?)]. *)
Definition writeFileWithCallback (path : Path) (callback : WriteCallback)
    (options : option WriteOptions) (this : MiniFS) : Outcome bool * MiniFS :=
  _writeFile (pathAsSegments path) callback (get_recursive options) this.

(** The loop of [createDirectory] in [part_000]: that of [src/index.ts],
    with [new Directory(pathSegment)]. *)
Fixpoint createDirectory_loop (preferErrors recursive : bool)
    (path : list string) (dir : Directory) {struct path}
    : Outcome bool * Directory :=
  match path with
  | [] => (Return true, dir)
  | pathSegment :: rest =>
      let step := fun dir : Directory =>
        match get (dcontent dir) pathSegment with
        | VEntry (EFile _) =>
            (fail preferErrors MiniFS_createDirectory is_a_file pathSegment false, dir)
        | VEntry (EDirectory nextEntry) =>
            let '(r, nextEntry') :=
              createDirectory_loop preferErrors recursive rest nextEntry in
            (r, with_content dir (set (dcontent dir) pathSegment (EDirectory nextEntry')))
        | _ => (off_tree rest, dir)
        end in
      if negb (has_property (dcontent dir) pathSegment) then
        if recursive then
          step (with_content dir
                  (set (dcontent dir) pathSegment
                     (EDirectory (new_Directory (Some pathSegment)))))
        else
          (fail preferErrors MiniFS_createDirectory Directory_does_not_exist
                pathSegment false, dir)
      else step dir
  end.

(** [createDirectory(path, options?)] of [part_000]. *)
Definition createDirectory (path : Path) (options : option WriteOptions)
    (this : MiniFS) : Outcome bool * MiniFS :=
  let path := pathAsSegments path in
  let recursive := get_recursive options in
  let '(r, dir) := createDirectory_loop (preferErrors this) recursive path (files this) in
  (r, with_files this dir).

End Callback.
End Part000.

(** ** Sequences of calls *)

Section Calls.

Context {TFileContent TData : Type}.
Local Abbreviation MiniFS := (@MiniFS TFileContent TData).
Local Abbreviation Directory := (@Directory TFileContent TData).

(** A call of one of the public methods of the store. *)
Inductive Call : Type :=
  | Call_createDirectory (path : Path) (options : option WriteOptions)
  | Call_readDirectory (path : Path) (options : option ReadOptions)
  | Call_readFile (path : Path) (options : option ReadOptions)
  | Call_writeFile (path : Path) (content : @Content TFileContent)
                   (options : option WriteOptions)
  | Call_remove (path : Path)
  | Call_walk.

(** The store after the call, however the call ended. *)
Definition after (c : Call) (this : MiniFS) : MiniFS :=
  match c with
  | Call_createDirectory path options => snd (createDirectory path options this)
  | Call_readDirectory path options => snd (readDirectory path options this)
  | Call_readFile path options => snd (readFile path options this)
  | Call_writeFile path content options => snd (writeFile path content options this)
  | Call_remove path => snd (remove path this)
  | Call_walk => snd (walk this)
  end.

Definition after_all (calls : list Call) (this : MiniFS) : MiniFS :=
  fold_left (fun this c => after c this) calls this.

(** The directory a path leads to when each of its segments names an own
    entry that is a directory. *)
Fixpoint resolve (path : list string) (dir : Directory) : option Directory :=
  match path with
  | [] => Some dir
  | segment :: rest =>
      match own (dcontent dir) segment with
      | Some (EDirectory d) => resolve rest d
      | _ => None
      end
  end.

(** A path at which [writeFile] makes a new file: it is not empty, each
    segment before the last either names a directory or is not in its parent
    (and then the later ones are looked up in new, empty directories), and
    the last segment is not in its parent. "In" is the [in] of the source:
    an own entry or a name inherited from [Object.prototype]. *)
Fixpoint creatable (path : list string) (dir : Directory) : bool :=
  match path with
  | [] => false
  | segment :: rest =>
      if isLast rest then negb (has_property (dcontent dir) segment)
      else match get (dcontent dir) segment with
           | VUndefined => creatable rest (new_Directory None)
           | VEntry (EDirectory d) => creatable rest d
           | _ => false
           end
  end.

End Calls.
(** ** Stores to try the calls on

    Contents are strings here and the data slot is never filled. *)
Module Stores.

Definition Store : Type := @MiniFS string unit.

(** [new MiniFS()] and [new MiniFS({ preferErrors: true })]. *)
Definition fresh : Store := constructor None.
Definition fresh_errors : Store :=
  constructor (Some {| opt_preferErrors := Some true |}).

(** After [writeFile("f", "old")]. *)
Definition with_file (this : Store) : Store :=
  snd (writeFile (PString "f") (Payload "old") None this).

(** After [createDirectory("d")]. *)
Definition with_directory (this : Store) : Store :=
  snd (createDirectory (PString "d") None this).

(** After [writeFile("a/b.txt", "c")]. *)
Definition with_nested_file (this : Store) : Store :=
  snd (writeFile (PString "a/b.txt") (Payload "c") None this).

(** The same for the store of [part_000], with its own [writeFile]. *)
Definition fresh_000 : Store := Part000.constructor None.
Definition fresh_errors_000 : Store :=
  Part000.constructor (Some {| opt_preferErrors := Some true |}).
Definition with_file_000 (this : Store) : Store :=
  snd (Part000.writeFile (PString "f") (Payload "old") None this).
Definition with_nested_file_000 (this : Store) : Store :=
  snd (Part000.writeFile (PString "a/b.txt") (Payload "c") None this).

(** A callback that sets the content and fills the data slot. *)
Definition set_both : @Part000.WriteCallback string unit :=
  fun file => mkFile (fname file) (Payload "new") (Some tt).

End Stores.

(** ** Trees as a whole *)

Section Trees.

Context {TFileContent TData : Type}.
Local Abbreviation Entry := (@Entry TFileContent TData).
Local Abbreviation Directory := (@Directory TFileContent TData).
Local Abbreviation DirectoryContent := (@DirectoryContent TFileContent TData).

(** The entry a non-empty path names when each segment is an own property
    and each segment before the last names a directory. *)
Fixpoint find (path : list string) (dir : Directory) : option Entry :=
  match path with
  | [] => None
  | segment :: rest =>
      match own (dcontent dir) segment with
      | Some e =>
          if isLast rest then Some e
          else match e with
               | EDirectory d => find rest d
               | EFile _ => None
               end
      | None => None
      end
  end.

(** An entry is kept: a file is the file it was (name, content and data);
    a directory is still a directory. *)
Definition kept (e e' : Entry) : Prop :=
  match e, e' with
  | EFile f, EFile f' => f = f'
  | EDirectory _, EDirectory _ => True
  | _, _ => False
  end.

(** No two own properties of the content object have the same key (what an
    object guarantees, and the list does not). *)
Fixpoint unique_keys (c : DirectoryContent) : bool :=
  match c with
  | [] => true
  | (k, _) :: c' =>
      match own c' k with
      | None => unique_keys c'
      | Some _ => false
      end
  end.

(** The entry carries the marks of the constructor call that made it under
    key [k]: a file is named [k]; a directory is named [dir_name k] ([None]
    in [src/index.ts], [Some k] in [part_000]). *)
Definition made_as (dir_name : string -> option string) (k : string) (e : Entry)
    : bool :=
  match e with
  | EFile f => String.eqb (fname f) k
  | EDirectory d =>
      match dname d, dir_name k with
      | None, None => true
      | Some n, Some m => String.eqb n m
      | _, _ => false
      end
  end.

(** The content object as the methods build it: unique keys, none of them a
    name of [Object.prototype], every entry made under its key. *)
Definition built (dir_name : string -> option string) (c : DirectoryContent) : bool :=
  unique_keys c
  && forallb (fun p => negb (inherited (fst p)) && made_as dir_name (fst p) (snd p)) c.

(** A property of content objects holds of the directory's and of that of
    every directory below it. *)
Fixpoint everywhere (ok : DirectoryContent -> bool) (d : Directory) : bool :=
  match d with
  | mkDirectory _ c _ =>
      ok c
      && (fix below (l : DirectoryContent) : bool :=
            match l with
            | [] => true
            | (_, EDirectory d') :: l' => everywhere ok d' && below l'
            | (_, EFile _) :: l' => below l'
            end) c
  end.

(** The number of entries below a directory. *)
Fixpoint count_entries (d : Directory) : nat :=
  match d with
  | mkDirectory _ c _ =>
      (fix below (l : DirectoryContent) : nat :=
         match l with
         | [] => 0
         | (_, EDirectory d') :: l' => S (count_entries d' + below l')
         | (_, EFile _) :: l' => S (below l')
         end) c
  end.

(** The tree with the names of its directories forgotten: what is left of a
    tree of [part_000] in the terms of [src/index.ts]. *)
Fixpoint forget_names (d : Directory) : Directory :=
  match d with
  | mkDirectory _ c x =>
      mkDirectory None
        ((fix below (l : DirectoryContent) : DirectoryContent :=
            match l with
            | [] => []
            | (k, EDirectory d') :: l' => (k, EDirectory (forget_names d')) :: below l'
            | (k, EFile f) :: l' => (k, EFile f) :: below l'
            end) c)
        x
  end.

Definition forget_names_entry (e : Entry) : Entry :=
  match e with
  | EFile f => EFile f
  | EDirectory d => EDirectory (forget_names d)
  end.

Definition forget_names_store (this : @MiniFS TFileContent TData)
    : @MiniFS TFileContent TData :=
  mkMiniFS (forget_names (files this)) (preferErrors this).

(** The outcome with the method in its error, if any, set to [m]: the
    messages of [part_000]'s [writeFile] name [_writeFile]. *)
Definition with_method {A : Type} (m : Method) (o : Outcome A) : Outcome A :=
  match o with
  | Throw e => Throw (mkError m (complaint e) (subject e))
  | _ => o
  end.

(** The calls of [part_000] that take no callback. *)
Inductive Call000 : Type :=
  | Call000_createDirectory (path : Path) (options : option WriteOptions)
  | Call000_writeFile (path : Path) (content : @Content TFileContent)
                      (options : option WriteOptions)
  | Call000_remove (path : Path).

Definition after000 (c : Call000) (this : @MiniFS TFileContent TData)
    : @MiniFS TFileContent TData :=
  match c with
  | Call000_createDirectory path options =>
      snd (Part000.createDirectory path options this)
  | Call000_writeFile path content options =>
      snd (Part000.writeFile path content options this)
  | Call000_remove path => snd (remove path this)
  end.

Definition after_all000 (calls : list Call000) (this : @MiniFS TFileContent TData)
    : @MiniFS TFileContent TData :=
  fold_left (fun this c => after000 c this) calls this.

(** The same calls, as calls of [src/index.ts]. *)
Definition as_index_call (c : Call000) : @Call TFileContent :=
  match c with
  | Call000_createDirectory path options => Call_createDirectory path options
  | Call000_writeFile path content options => Call_writeFile path content options
  | Call000_remove path => Call_remove path
  end.

(** The common shape of the walks that create: those of [createDirectory]
    and [writeFile], in [src/index.ts] and in [part_000], differ in the
    method their messages name, in the directory they make for a missing
    segment and in the file, if any, they make for a missing last segment.
    Each of the four loops is shown below to be an instance; what holds of
    the shape holds of all four. *)
Fixpoint create_loop (m : Method) (new_dir : string -> Directory)
    (new_file : option (string -> @File TFileContent TData))
    (preferErrors recursive : bool) (path : list string) (dir : Directory)
    {struct path} : Outcome bool * Directory :=
  match path with
  | [] => (Return true, dir)
  | pathSegment :: rest =>
      let step := fun dir : Directory =>
        match get (dcontent dir) pathSegment with
        | VEntry (EFile _) => (fail preferErrors m is_a_file pathSegment false, dir)
        | VEntry (EDirectory nextEntry) =>
            let '(r, nextEntry') :=
              create_loop m new_dir new_file preferErrors recursive rest nextEntry in
            (r, with_content dir (set (dcontent dir) pathSegment (EDirectory nextEntry')))
        | _ => (off_tree rest, dir)
        end in
      if negb (has_property (dcontent dir) pathSegment) then
        if recursive then
          match new_file with
          | Some file =>
              if isLast rest then
                (Return true,
                 with_content dir (set (dcontent dir) pathSegment (EFile (file pathSegment))))
              else
                step (with_content dir
                        (set (dcontent dir) pathSegment (EDirectory (new_dir pathSegment))))
          | None =>
              step (with_content dir
                      (set (dcontent dir) pathSegment (EDirectory (new_dir pathSegment))))
          end
        else (fail preferErrors m Directory_does_not_exist pathSegment false, dir)
      else step dir
  end.

End Trees.

(** ** Proof steps *)

(** One step of a walk: every branch of the loop body, by cases. *)
Ltac walk_keeps_root :=
  intros; cbn;
  repeat match goal with
         | |- context [if ?b then _ else _] => destruct b; cbn
         | |- context [match get ?c ?k with _ => _ end] =>
             destruct (get c k) as [| |[?|?]|]; cbn
         | |- context [let '(_, _) := ?x in _] => destruct x; cbn
         | |- context [off_tree ?l] => destruct l; cbn
         end;
  auto.

(** ** Properties of path normalisation *)

Lemma split_nonempty (sep : ascii) (s : string) : split sep s <> [].
Proof.
  destruct s as [|c s']; simpl; [discriminate|].
  destruct (Ascii.eqb c sep); [discriminate|].
  destruct (split sep s'); discriminate.
Qed.

Lemma split_length (sep : ascii) (s : string) :
  length (split sep s) = S (count_char sep s).
Proof.
  induction s as [|c s' IH]; simpl; [reflexivity|].
  destruct (Ascii.eqb c sep); simpl.
  - now rewrite IH.
  - destruct (split sep s') as [|p ps] eqn:E; simpl in *; [discriminate|exact IH].
Qed.

Lemma split_join (sep : ascii) (s : string) :
  join (String sep EmptyString) (split sep s) = s.
Proof.
  unfold join.
  induction s as [|c s' IH]; simpl; [reflexivity|].
  destruct (Ascii.eqb c sep) eqn:Ec.
  - apply Ascii.eqb_eq in Ec; subst c.
    pose proof (split_nonempty sep s') as Hne.
    destruct (split sep s') as [|p ps]; [congruence|].
    simpl in *. now rewrite IH.
  - pose proof (split_nonempty sep s') as Hne.
    destruct (split sep s') as [|p ps]; [congruence|].
    simpl in *. destruct ps as [|q qs]; simpl in *; now rewrite <- IH.
Qed.

Lemma split_no_sep (sep : ascii) (s : string) :
  forallb (no_char sep) (split sep s) = true.
Proof.
  induction s as [|c s' IH]; simpl; [reflexivity|].
  destruct (Ascii.eqb c sep) eqn:Ec; simpl.
  - exact IH.
  - destruct (split sep s') as [|p ps]; simpl in *.
    + unfold no_char; simpl. now rewrite Ec.
    + apply andb_true_iff in IH as [Hp Hps].
      apply andb_true_iff; split; [|exact Hps].
      unfold no_char in *; simpl. now rewrite Ec.
Qed.

(** C6. Path normalisation is a literal split on "/": a segment array
    passes through unchanged; a string is cut at every "/" and nowhere
    else, so no piece holds a "/", joining the pieces with "/" gives the
    string back, and there is one piece more than there are "/" (empty
    pieces are kept); "a//b" gives ["a"; ""; "b"] and "/a" gives [""; "a"]. *)
Theorem pathAsSegments_literal_split :
  (forall segments, pathAsSegments (PSegments segments) = segments)
  /\ (forall s, pathAsSegments (PString s) = split "/" s)
  /\ (forall s, join "/" (pathAsSegments (PString s)) = s)
  /\ (forall s, forallb (no_char "/") (pathAsSegments (PString s)) = true)
  /\ (forall s, length (pathAsSegments (PString s)) = S (count_char "/" s))
  /\ pathAsSegments (PString "a//b") = ["a"; ""; "b"]
  /\ pathAsSegments (PString "/a") = [""; "a"]
  /\ pathAsSegments (PString "") = [""].
Proof.
  repeat split; try reflexivity.
  - intros s. apply split_join.
  - intros s. apply split_no_sep.
  - intros s. apply split_length.
Qed.

(** ** The content object *)

Section Properties.

Context {TFileContent TData : Type}.
Local Abbreviation File := (@File TFileContent TData).
Local Abbreviation Entry := (@Entry TFileContent TData).
Local Abbreviation Directory := (@Directory TFileContent TData).
Local Abbreviation DirectoryContent := (@DirectoryContent TFileContent TData).
Local Abbreviation Content := (@Content TFileContent).
Local Abbreviation MiniFS := (@MiniFS TFileContent TData).
Local Abbreviation Call := (@Call TFileContent).

Implicit Types (c : DirectoryContent) (k segment : string) (e : Entry)
  (dir parent : Directory) (this : MiniFS) (path : Path).

Lemma with_content_same dir : with_content dir (dcontent dir) = dir.
Proof. now destruct dir. Qed.

Lemma dcontent_with_content dir c : dcontent (with_content dir c) = c.
Proof. reflexivity. Qed.

Lemma with_files_same this : with_files this (files this) = this.
Proof. now destruct this. Qed.

Lemma set_own c k e : own c k = Some e -> set c k e = c.
Proof.
  induction c as [|[k' e'] c' IH]; simpl; [discriminate|].
  destruct (String.eqb k' k); intros H.
  - now injection H as ->.
  - now rewrite IH.
Qed.

Lemma own_set c k e : own (set c k e) k = Some e.
Proof.
  induction c as [|[k' e'] c' IH]; simpl.
  - now rewrite String.eqb_refl.
  - destruct (String.eqb k' k) eqn:E; simpl; now rewrite E.
Qed.

Lemma own_delete c k : own (delete c k) k = None.
Proof.
  induction c as [|[k' e'] c' IH]; simpl; [reflexivity|].
  destruct (String.eqb k' k) eqn:E; simpl; [exact IH|].
  now rewrite E.
Qed.

Lemma own_delete_other c k k' : k' <> k -> own (delete c k) k' = own c k'.
Proof.
  intros Hne.
  induction c as [|[k0 e0] c' IH]; simpl; [reflexivity|].
  destruct (String.eqb k0 k) eqn:E; simpl.
  - apply String.eqb_eq in E; subst k0.
    destruct (String.eqb k k') eqn:E'; [|exact IH].
    apply String.eqb_eq in E'. congruence.
  - now rewrite IH.
Qed.

Lemma own_has_property c k e : own c k = Some e -> has_property c k = true.
Proof. unfold has_property. now intros ->. Qed.

Lemma own_get c k e : own c k = Some e -> get c k = VEntry e.
Proof. unfold get. now intros ->. Qed.

Lemma get_undefined c k : get c k = VUndefined -> has_property c k = false.
Proof.
  unfold get, has_property. destruct (own c k); [discriminate|].
  now destruct (inherited k).
Qed.

Lemma get_entry c k e : get c k = VEntry e -> own c k = Some e.
Proof.
  unfold get. destruct (own c k); [congruence|].
  now destruct (inherited k).
Qed.

Lemma isLast_app (l : list string) k : isLast (l ++ [k]) = false.
Proof. now destruct l. Qed.


(** ** [remove] *)

Lemma remove_loop_directory (pe : bool) (parent_path : list string) segment :
  forall dir parent (x : Directory),
    resolve parent_path dir = Some parent ->
    own (dcontent parent) segment = Some (EDirectory x) ->
    exists dir',
      remove_loop pe (parent_path ++ [segment]) dir = (Return true, dir')
      /\ resolve parent_path dir'
         = Some (with_content parent (delete (dcontent parent) segment)).
Proof.
  induction parent_path as [|s rest IH]; intros dir parent x Hres Hown; simpl in *.
  - injection Hres as <-.
    rewrite (own_has_property _ _ _ Hown), (own_get _ _ _ Hown). simpl.
    eexists; split; reflexivity.
  - destruct (own (dcontent dir) s) as [[f|d]|] eqn:Es; try discriminate.
    rewrite (own_has_property _ _ _ Es), (own_get _ _ _ Es), isLast_app. simpl.
    destruct (IH d parent x Hres Hown) as (d' & Hrun & Hres').
    rewrite Hrun. eexists; split; [reflexivity|].
    simpl. now rewrite own_set.
Qed.

Lemma remove_loop_file (pe : bool) (parent_path : list string) segment :
  forall dir parent (f : File),
    resolve parent_path dir = Some parent ->
    own (dcontent parent) segment = Some (EFile f) ->
    remove_loop pe (parent_path ++ [segment]) dir
    = (fail pe MiniFS_removeDirectory is_a_file segment false, dir).
Proof.
  induction parent_path as [|s rest IH]; intros dir parent f Hres Hown; simpl in *.
  - injection Hres as <-.
    now rewrite (own_has_property _ _ _ Hown), (own_get _ _ _ Hown).
  - destruct (own (dcontent dir) s) as [[f'|d]|] eqn:Es; try discriminate.
    rewrite (own_has_property _ _ _ Es), (own_get _ _ _ Es), isLast_app. simpl.
    rewrite (IH d parent f Hres Hown).
    now rewrite (set_own _ _ _ Es), with_content_same.
Qed.

(** C1 (as the code has it). Let the segments before the last resolve
    through directories to [parent], and let the last segment name an entry
    of [parent]. If that entry is a Directory, [remove] returns [true] and
    the parent's content has lost exactly that property: the last segment no
    longer names an own entry and every other name keeps its entry. If it is
    a File, [remove] fails -- [false], or the error "is a file" when errors
    are preferred -- and the store is as it was. *)
Theorem remove_detaches_directory_refuses_file
    this path (parent_path : list string) segment parent e :
  pathAsSegments path = parent_path ++ [segment] ->
  resolve parent_path (files this) = Some parent ->
  own (dcontent parent) segment = Some e ->
  match e with
  | EDirectory _ =>
      fst (remove path this) = Return true
      /\ preferErrors (snd (remove path this)) = preferErrors this
      /\ resolve parent_path (files (snd (remove path this)))
         = Some (with_content parent (delete (dcontent parent) segment))
      /\ own (delete (dcontent parent) segment) segment = None
      /\ (forall k, k <> segment ->
            own (delete (dcontent parent) segment) k = own (dcontent parent) k)
  | EFile _ =>
      remove path this
      = (if preferErrors this
         then Throw (mkError MiniFS_removeDirectory is_a_file segment)
         else Return false,
         this)
  end.
Proof.
  intros Hpath Hres Hown. unfold remove. rewrite Hpath.
  destruct e as [f|x].
  - rewrite (remove_loop_file _ _ _ _ _ _ Hres Hown).
    unfold fail. now rewrite with_files_same.
  - destruct (remove_loop_directory (preferErrors this) _ _ _ _ _ Hres Hown)
      as (dir' & Hrun & Hres').
    rewrite Hrun. simpl. repeat split.
    + exact Hres'.
    + apply own_delete.
    + intros k Hk. now apply own_delete_other.
Qed.

(** ** [writeFile] then [readFile] *)

Lemma has_property_set c k e : has_property (set c k e) k = true.
Proof. unfold has_property. now rewrite own_set. Qed.

Lemma get_set c k e : get (set c k e) k = VEntry e.
Proof. unfold get. now rewrite own_set. Qed.

Lemma writeFile_loop_creatable (pe : bool) (content : Content) (segments : list string) :
  forall dir,
    creatable segments dir = true ->
    exists dir',
      writeFile_loop pe true content segments dir = (Return true, dir')
      /\ forall whole,
           readEntry_loop pe whole segments (VEntry (EDirectory dir'))
           = Return (VEntry (EFile (new_File (last segments "") content))).
Proof.
  induction segments as [|s rest IH]; intros dir Hc; [discriminate|].
  cbn [creatable] in Hc. cbn [writeFile_loop].
  destruct rest as [|s2 rest2].
  - cbn [isLast] in *. rewrite Hc. cbn.
    eexists; split; [reflexivity|]. intros whole.
    now rewrite dcontent_with_content, has_property_set, get_set.
  - cbn [isLast] in *. cbv zeta.
    remember (s2 :: rest2) as rest eqn:Erest.
    destruct (get (dcontent dir) s) as [| |[f|d]|] eqn:Eg; try discriminate.
    + rewrite (get_undefined _ _ Eg). cbn [negb].
      rewrite dcontent_with_content, get_set.
      destruct (IH _ Hc) as (d' & Hrun & Hread). rewrite Hrun.
      eexists; split; [reflexivity|]. intros whole.
      cbn [readEntry_loop]. rewrite dcontent_with_content, has_property_set, get_set.
      cbn [negb]. rewrite Hread, Erest. reflexivity.
    + rewrite (own_has_property _ _ _ (get_entry _ _ _ Eg)). cbn [negb].
      destruct (IH _ Hc) as (d' & Hrun & Hread). rewrite Hrun.
      eexists; split; [reflexivity|]. intros whole.
      cbn [readEntry_loop]. rewrite dcontent_with_content, has_property_set, get_set.
      cbn [negb]. rewrite Hread, Erest. reflexivity.
Qed.

(** C5 (as the code has it). At a path where [writeFile] makes a new file
    (see [creatable]) and with a content that is neither [undefined] nor
    [null], [writeFile(P, C)] returns [true] and the [readFile(P)] that
    follows returns exactly [C]. *)
Theorem writeFile_readFile_roundtrip this path (content : Content) :
  creatable (pathAsSegments path) (files this) = true ->
  eq_undefined content = false ->
  fst (writeFile path content None this) = Return true
  /\ fst (readFile path None (snd (writeFile path content None this)))
     = Return (RF_content content).
Proof.
  intros Hc Hu. unfold writeFile, readFile, readEntry. cbn [get_recursive].
  destruct (writeFile_loop_creatable (preferErrors this) content _ _ Hc)
    as (dir' & Hrun & Hread).
  rewrite Hrun. cbn. split; [reflexivity|].
  rewrite Hread. cbn. now rewrite Hu.
Qed.

(** ** [writeFile] at an existing entry

    What the walks do when the last segment names an entry that is already
    there, on every store: an existing File is refused, an existing
    Directory is walked into and the method returns [true]; the store is
    left as it was. In [_writeFile] the branch that would run the callback
    on the existing file is never reached. *)

Ltac walk_into Es IH :=
  rewrite (own_has_property _ _ _ Es), (own_get _ _ _ Es), ?isLast_app;
  cbn [negb]; cbv beta iota; rewrite IH;
  rewrite (set_own _ _ _ Es), with_content_same.

Lemma writeFile_loop_existing (pe r : bool) (content : Content)
    (parent_path : list string) segment :
  forall dir parent e,
    resolve parent_path dir = Some parent ->
    own (dcontent parent) segment = Some e ->
    writeFile_loop pe r content (parent_path ++ [segment]) dir
    = (match e with
       | EFile _ => fail pe MiniFS_writeFile is_a_file segment false
       | EDirectory _ => Return true
       end, dir).
Proof.
  induction parent_path as [|s rest IH]; intros dir parent e Hres Hown; simpl in *.
  - injection Hres as <-.
    rewrite (own_has_property _ _ _ Hown), (own_get _ _ _ Hown). cbn.
    destruct e as [f|x]; [reflexivity|].
    now rewrite (set_own _ _ _ Hown), with_content_same.
  - destruct (own (dcontent dir) s) as [[f'|d]|] eqn:Es; try discriminate.
    now walk_into Es (IH d parent e Hres Hown).
Qed.

Lemma _writeFile_loop_existing (pe r : bool) (callback : Part000.WriteCallback)
    (whole parent_path : list string) segment :
  forall dir parent e,
    resolve parent_path dir = Some parent ->
    own (dcontent parent) segment = Some e ->
    Part000._writeFile_loop pe r callback whole (parent_path ++ [segment]) dir
    = (match e with
       | EFile _ => fail pe MiniFS__writeFile is_a_file segment false
       | EDirectory _ => Return true
       end, dir).
Proof.
  induction parent_path as [|s rest IH]; intros dir parent e Hres Hown; simpl in *.
  - injection Hres as <-.
    rewrite (own_has_property _ _ _ Hown), (own_get _ _ _ Hown). cbn.
    destruct e as [f|x]; [reflexivity|].
    now rewrite (set_own _ _ _ Hown), with_content_same.
  - destruct (own (dcontent dir) s) as [[f'|d]|] eqn:Es; try discriminate.
    now walk_into Es (IH d parent e Hres Hown).
Qed.

Lemma writeFile_existing this path (content : Content) (options : option WriteOptions)
    (callback : Part000.WriteCallback) (parent_path : list string) segment parent e :
  pathAsSegments path = parent_path ++ [segment] ->
  resolve parent_path (files this) = Some parent ->
  own (dcontent parent) segment = Some e ->
  writeFile path content options this
  = (match e with
     | EFile _ => fail (preferErrors this) MiniFS_writeFile is_a_file segment false
     | EDirectory _ => Return true
     end, this)
  /\ Part000.writeFileWithCallback path callback options this
     = (match e with
        | EFile _ => fail (preferErrors this) MiniFS__writeFile is_a_file segment false
        | EDirectory _ => Return true
        end, this).
Proof.
  intros Hpath Hres Hown.
  unfold writeFile, Part000.writeFileWithCallback, Part000._writeFile.
  rewrite Hpath.
  rewrite (writeFile_loop_existing _ _ _ _ _ _ _ _ Hres Hown).
  rewrite (_writeFile_loop_existing _ _ _ _ _ _ _ _ _ Hres Hown).
  now rewrite with_files_same.
Qed.

(** ** Failing without a trace, reading without a trace *)

(** C7. Where "x" is not in the root, [createDirectory("x/y",
    {recursive: false})] fails -- [false], or the error "does not exist"
    when errors are preferred -- and the store is as it was: no "x" is
    made. *)
Theorem createDirectory_not_recursive_creates_nothing this :
  has_property (dcontent (files this)) "x" = false ->
  createDirectory (PString "x/y") (Some {| recursive := Some false |}) this
  = (if preferErrors this
     then Throw (mkError MiniFS_createDirectory Directory_does_not_exist "x")
     else Return false,
     this).
Proof.
  intros H. unfold createDirectory. cbn. rewrite H. cbn.
  unfold fail. now rewrite with_files_same.
Qed.

(** C8. [readDirectory] and [readFile] leave the store as it was, for every
    store, path and options, however the call ends. *)
Theorem reads_leave_the_store this path (options : option ReadOptions) :
  snd (readDirectory path options this) = this
  /\ snd (readFile path options this) = this.
Proof.
  unfold readDirectory, readFile, readEntry.
  destruct (readEntry_loop _ _ _ _) as [v|err|]; cbn; [|auto|auto].
  split.
  - destruct (instanceof_File v); [reflexivity|].
    destruct (truthy v); [|reflexivity].
    destruct (get_returnEntry options); [reflexivity|].
    destruct v as [| |[f|d]|]; reflexivity.
  - destruct v as [| |[f|d]|]; cbn; try reflexivity.
    destruct (eq_undefined (fcontent f)); [reflexivity|].
    destruct (get_returnEntry options); reflexivity.
Qed.

(** ** The root *)

Lemma createDirectory_loop_root (pe r : bool) (segments : list string) dir :
  dname (snd (createDirectory_loop pe r segments dir)) = dname dir
  /\ ddata (snd (createDirectory_loop pe r segments dir)) = ddata dir.
Proof. destruct segments; walk_keeps_root. Qed.

Lemma writeFile_loop_root (pe r : bool) (content : Content) (segments : list string) dir :
  dname (snd (writeFile_loop pe r content segments dir)) = dname dir
  /\ ddata (snd (writeFile_loop pe r content segments dir)) = ddata dir.
Proof. destruct segments; walk_keeps_root. Qed.

Lemma remove_loop_root (pe : bool) (segments : list string) dir :
  dname (snd (remove_loop pe segments dir)) = dname dir
  /\ ddata (snd (remove_loop pe segments dir)) = ddata dir.
Proof. destruct segments; walk_keeps_root. Qed.

Lemma after_root (call : Call) this :
  dname (files (after call this)) = dname (files this)
  /\ ddata (files (after call this)) = ddata (files this)
  /\ preferErrors (after call this) = preferErrors this.
Proof.
  destruct call as [p o|p o|p o|p content o|p|]; cbn [after].
  - unfold createDirectory.
    pose proof (createDirectory_loop_root (preferErrors this) (get_recursive o)
                  (pathAsSegments p) (files this)) as [Hn Hd].
    destruct (createDirectory_loop _ _ _ _); cbn in *. auto.
  - destruct (reads_leave_the_store this p o) as [-> _]. auto.
  - destruct (reads_leave_the_store this p o) as [_ ->]. auto.
  - unfold writeFile.
    pose proof (writeFile_loop_root (preferErrors this) (get_recursive o) content
                  (pathAsSegments p) (files this)) as [Hn Hd].
    destruct (writeFile_loop _ _ _ _ _); cbn in *. auto.
  - unfold remove.
    pose proof (remove_loop_root (preferErrors this) (pathAsSegments p) (files this))
      as [Hn Hd].
    destruct (remove_loop _ _ _); cbn in *. auto.
  - cbn. auto.
Qed.

(** C9. After every sequence of calls of the public methods, on every
    store, the root is a Directory: the root path resolves to the entry
    [this.files], which is an instance of [Directory] and not of [File];
    and it is still the directory object the store started with -- its name
    and its data slot are those it had, only its content object has been
    written to -- under the same error mode. *)
Theorem root_is_always_the_directory (calls : list Call) this :
  fst (readEntry (PSegments rootPath) (after_all calls this))
  = Return (VEntry (EDirectory (files (after_all calls this))))
  /\ instanceof_Directory (VEntry (EDirectory (files (after_all calls this)))) = true
  /\ instanceof_File (VEntry (EDirectory (files (after_all calls this)))) = false
  /\ dname (files (after_all calls this)) = dname (files this)
  /\ ddata (files (after_all calls this)) = ddata (files this)
  /\ preferErrors (after_all calls this) = preferErrors this.
Proof.
  repeat (split; [reflexivity|]).
  revert this. unfold after_all.
  induction calls as [|call calls IH]; intros this; cbn [fold_left]; [auto|].
  destruct (IH (after call this)) as (Hn & Hd & Hp).
  destruct (after_root call this) as (Hn' & Hd' & Hp').
  repeat split; congruence.
Qed.

(** C10. Called with the root path [[]], [writeFile], [createDirectory] and
    [remove] return [true] and leave the store as it was, whatever the
    content and the options; so does the callback variant of [writeFile].
    No file is made: [readFile] of the root path still finds a directory. *)
Theorem root_path_calls_change_nothing this (content : Content)
    (options : option WriteOptions) (callback : Part000.WriteCallback) :
  writeFile (PSegments rootPath) content options this = (Return true, this)
  /\ createDirectory (PSegments rootPath) options this = (Return true, this)
  /\ remove (PSegments rootPath) this = (Return true, this)
  /\ Part000.writeFile (PSegments rootPath) content options this = (Return true, this)
  /\ Part000.writeFileWithCallback (PSegments rootPath) callback options this
     = (Return true, this)
  /\ fst (readFile (PSegments rootPath) None
            (snd (writeFile (PSegments rootPath) content options this)))
     = (if preferErrors this
        then Throw (mkError MiniFS_readFile is_a_directory "")
        else Return RF_null).
Proof.
  unfold writeFile, createDirectory, remove, Part000.writeFile,
    Part000.writeFileWithCallback, Part000._writeFile.
  cbn. rewrite with_files_same. repeat split.
Qed.

(** C4 (as the code has it). On a new store, [writeFile("a/b.txt", c)]
    returns [true]; then [readDirectory(rootPath)], the root path [[]],
    lists ["a"], and [readDirectory("a")] lists ["b.txt"]. The string ""
    is not the root path: it is the one segment "", which names nothing, so
    [readDirectory("")] returns [null], or raises when errors are
    preferred. *)
Theorem write_nested_then_list (options : option MiniFSOptions) (content : Content) :
  fst (writeFile (PString "a/b.txt") content None (constructor options : MiniFS))
  = Return true
  /\ fst (readDirectory (PSegments rootPath) None
            (snd (writeFile (PString "a/b.txt") content None
                    (constructor options : MiniFS))))
     = Return (RD_names ["a"])
  /\ fst (readDirectory (PString "a") None
            (snd (writeFile (PString "a/b.txt") content None
                    (constructor options : MiniFS))))
     = Return (RD_names ["b.txt"])
  /\ fst (readDirectory (PString "") None
            (snd (writeFile (PString "a/b.txt") content None
                    (constructor options : MiniFS))))
     = (if preferErrors (constructor options : MiniFS)
        then Throw (mkError MiniFS_readEntry Intermediate_does_not_exist "")
        else Return RD_null).
Proof.
  destruct options as [[[[|]|]]|]; cbn; repeat split.
Qed.

End Properties.

(** ** The calls on small stores *)

Import Stores.

(** C1, the claim as stated, fails: "f" names an entry of the root, a File,
    and [remove("f")] returns [false] and leaves the file where it is. *)
Lemma remove_keeps_existing_file :
  resolve [] (files (with_file fresh)) = Some (files (with_file fresh))
  /\ own (dcontent (files (with_file fresh))) "f"
     = Some (EFile (new_File "f" (Payload "old")))
  /\ fst (remove (PString "f") (with_file fresh)) <> Return true
  /\ own (dcontent (files (snd (remove (PString "f") (with_file fresh))))) "f" <> None.
Proof. cbn. repeat split; discriminate. Qed.

(** The directory "a" of a store holding "a/b.txt" is detached, with the
    file below it. *)
Lemma remove_detaches_directory_refuses_file_witness :
  fst (remove (PString "a") (with_nested_file fresh)) = Return true
  /\ preferErrors (snd (remove (PString "a") (with_nested_file fresh))) = false
  /\ resolve [] (files (snd (remove (PString "a") (with_nested_file fresh))))
     = Some (new_Directory None)
  /\ own (delete (dcontent (files (with_nested_file fresh))) "a") "a" = None
  /\ (forall k, k <> "a" ->
        own (delete (dcontent (files (with_nested_file fresh))) "a") k
        = own (dcontent (files (with_nested_file fresh))) k).
Proof.
  exact (remove_detaches_directory_refuses_file
           (with_nested_file fresh) (PString "a") [] "a"
           (files (with_nested_file fresh))
           (EDirectory
              (mkDirectory None [("b.txt", EFile (new_File "b.txt" (Payload "c")))] None))
           eq_refl eq_refl eq_refl).
Defined.

(** C2. The code at an existing File: [writeFile("f", "new")] returns
    [false] (raises "is a file" when errors are preferred) and the file
    keeps its old content, in [src/index.ts] and in [part_000], where
    [writeFileWithCallback] is refused the same way and the callback is not
    run. *)
Theorem writeFile_refuses_existing_file :
  own (dcontent (files (with_file fresh))) "f"
  = Some (EFile (new_File "f" (Payload "old")))
  /\ writeFile (PString "f") (Payload "new") None (with_file fresh)
     = (Return false, with_file fresh)
  /\ writeFile (PString "f") (Payload "new") None (with_file fresh_errors)
     = (Throw (mkError MiniFS_writeFile is_a_file "f"), with_file fresh_errors)
  /\ fst (readFile (PString "f") None
            (snd (writeFile (PString "f") (Payload "new") None (with_file fresh))))
     = Return (RF_content (Payload "old"))
  /\ own (dcontent (files (with_file_000 fresh_000))) "f"
     = Some (EFile (new_File "f" (Payload "old")))
  /\ Part000.writeFile (PString "f") (Payload "new") None (with_file_000 fresh_000)
     = (Return false, with_file_000 fresh_000)
  /\ Part000.writeFile (PString "f") (Payload "new") None
       (with_file_000 fresh_errors_000)
     = (Throw (mkError MiniFS__writeFile is_a_file "f"),
        with_file_000 fresh_errors_000)
  /\ Part000.writeFileWithCallback (PString "f") set_both None
       (with_file_000 fresh_000)
     = (Return false, with_file_000 fresh_000).
Proof. cbn. repeat split. Qed.

(** C3. The code at an existing Directory: [writeFile("d", "new")] and
    [writeFile("a", "new")] return [true], in either error mode, and the
    store is as it was; so in [part_000], for [writeFile] and for
    [writeFileWithCallback]. *)
Theorem writeFile_accepts_existing_directory :
  own (dcontent (files (with_directory fresh))) "d"
  = Some (EDirectory (new_Directory None))
  /\ writeFile (PString "d") (Payload "new") None (with_directory fresh)
     = (Return true, with_directory fresh)
  /\ writeFile (PString "d") (Payload "new") None (with_directory fresh_errors)
     = (Return true, with_directory fresh_errors)
  /\ writeFile (PString "a") (Payload "new") None (with_nested_file fresh)
     = (Return true, with_nested_file fresh)
  /\ Part000.writeFile (PString "a") (Payload "new") None
       (with_nested_file_000 fresh_000)
     = (Return true, with_nested_file_000 fresh_000)
  /\ Part000.writeFile (PString "a") (Payload "new") None
       (with_nested_file_000 fresh_errors_000)
     = (Return true, with_nested_file_000 fresh_errors_000)
  /\ Part000.writeFileWithCallback (PString "a") set_both None
       (with_nested_file_000 fresh_000)
     = (Return true, with_nested_file_000 fresh_000).
Proof. cbn. repeat split. Qed.

(** C4, the claim as stated, fails: after [writeFile("a/b.txt", "c")] on a
    new store, [readDirectory("")] returns [null], not the listing ["a"]. *)
Lemma readDirectory_empty_string_is_not_the_root :
  fst (writeFile (PString "a/b.txt") (Payload "c") None fresh) = Return true
  /\ fst (readDirectory (PString "") None (with_nested_file fresh)) = Return RD_null
  /\ fst (readDirectory (PString "") None (with_nested_file fresh))
     <> Return (RD_names ["a"]).
Proof. cbn. repeat split. discriminate. Qed.

(** C5, the claim as stated, fails: at the root path [writeFile] returns
    [true] and [readFile] then returns [null]; so it does for a content
    left [undefined], at a name every object inherits, and at an existing
    directory; below a File [writeFile] itself fails. *)
Lemma writeFile_readFile_not_always_roundtrip :
  (fst (writeFile (PSegments rootPath) (Payload "c") None fresh) = Return true
   /\ fst (readFile (PSegments rootPath) None
             (snd (writeFile (PSegments rootPath) (Payload "c") None fresh)))
      <> Return (RF_content (Payload "c")))
  /\ (fst (writeFile (PString "g") Undefined None fresh) = Return true
      /\ fst (readFile (PString "g") None
                (snd (writeFile (PString "g") Undefined None fresh)))
         <> Return (RF_content Undefined))
  /\ (fst (writeFile (PString "toString") (Payload "c") None fresh) = Return true
      /\ fst (readFile (PString "toString") None
                (snd (writeFile (PString "toString") (Payload "c") None fresh)))
         <> Return (RF_content (Payload "c")))
  /\ (fst (writeFile (PString "a") (Payload "c") None (with_nested_file fresh))
      = Return true
      /\ fst (readFile (PString "a") None
                (snd (writeFile (PString "a") (Payload "c") None
                        (with_nested_file fresh))))
         <> Return (RF_content (Payload "c")))
  /\ (fst (writeFile (PString "f/g") (Payload "c") None (with_file fresh))
      = Return false
      /\ fst (readFile (PString "f/g") None
                (snd (writeFile (PString "f/g") (Payload "c") None (with_file fresh))))
         <> Return (RF_content (Payload "c"))).
Proof. cbn. repeat split; discriminate. Qed.

(** "a/b.txt" is written to, and read back from, a store holding the
    directory "d". *)
Lemma writeFile_readFile_roundtrip_witness :
  fst (writeFile (PString "a/b.txt") (Payload "c") None (with_directory fresh))
  = Return true
  /\ fst (readFile (PString "a/b.txt") None
            (snd (writeFile (PString "a/b.txt") (Payload "c") None
                    (with_directory fresh))))
     = Return (RF_content (Payload "c")).
Proof.
  exact (writeFile_readFile_roundtrip (with_directory fresh) (PString "a/b.txt")
           (Payload "c") eq_refl eq_refl).
Defined.

(** A store holding only the directory "d" has no "x". *)
Lemma createDirectory_not_recursive_creates_nothing_witness :
  createDirectory (PString "x/y") (Some {| recursive := Some false |})
    (with_directory fresh)
  = (Return false, with_directory fresh).
Proof.
  exact (createDirectory_not_recursive_creates_nothing (with_directory fresh) eq_refl).
Defined.

(** * Further properties of the methods *)

(** ** Strings and segment arrays name the same paths *)

Lemma split_cons_no_sep (sep : ascii) (s t : string) :
  no_char sep s = true ->
  split sep (s ++ String sep t) = s :: split sep t.
Proof.
  unfold no_char. induction s as [|c s' IH]; simpl; intros H.
  - now rewrite Ascii.eqb_refl.
  - destruct (Ascii.eqb c sep); [discriminate|].
    simpl in H. now rewrite (IH H).
Qed.

Lemma split_no_sep_one (sep : ascii) (s : string) :
  no_char sep s = true -> split sep s = [s].
Proof.
  unfold no_char. induction s as [|c s' IH]; simpl; intros H; [reflexivity|].
  destruct (Ascii.eqb c sep); [discriminate|].
  simpl in H. now rewrite (IH H).
Qed.

(** X1. A segment array that is not empty and has no "/" inside a segment
    is the normal form of its segments joined by "/": the string and the
    array are the same path to every method. *)
Theorem pathAsSegments_join (segments : list string) :
  segments <> [] ->
  forallb (no_char "/") segments = true ->
  pathAsSegments (PString (join "/" segments)) = pathAsSegments (PSegments segments).
Proof.
  unfold join. simpl pathAsSegments.
  induction segments as [|s rest IH]; intros Hne Hall; [congruence|].
  simpl in Hall. apply andb_true_iff in Hall as [Hs Hrest].
  destruct rest as [|s2 rest2].
  - simpl. now apply split_no_sep_one.
  - change (String.concat "/" (s :: s2 :: rest2))
      with (s ++ String "/" (String.concat "/" (s2 :: rest2)))%string.
    rewrite (split_cons_no_sep _ _ _ Hs). f_equal.
    apply IH; [discriminate|exact Hrest].
Qed.

Lemma pathAsSegments_join_witness :
  pathAsSegments (PString (join "/" ["a"; ""; "b.txt"]))
  = pathAsSegments (PSegments ["a"; ""; "b.txt"]).
Proof.
  apply pathAsSegments_join; [discriminate|reflexivity].
Defined.

Section More.

Context {TFileContent TData : Type}.
Local Abbreviation File := (@File TFileContent TData).
Local Abbreviation Entry := (@Entry TFileContent TData).
Local Abbreviation Directory := (@Directory TFileContent TData).
Local Abbreviation DirectoryContent := (@DirectoryContent TFileContent TData).
Local Abbreviation Content := (@Content TFileContent).
Local Abbreviation MiniFS := (@MiniFS TFileContent TData).
Local Abbreviation Call := (@Call TFileContent).
Local Abbreviation Call000 := (@Call000 TFileContent).

Implicit Types (c : DirectoryContent) (k segment : string) (e : Entry)
  (dir parent : Directory) (this : MiniFS) (path : Path).

(** ** More on the content object *)

Lemma own_set_other c k k' e : k' <> k -> own (set c k e) k' = own c k'.
Proof.
  intros Hne.
  induction c as [|[k0 e0] c' IH]; simpl.
  - destruct (String.eqb k k') eqn:E; [|reflexivity].
    apply String.eqb_eq in E. congruence.
  - destruct (String.eqb k0 k) eqn:E; simpl.
    + apply String.eqb_eq in E; subst k0.
      destruct (String.eqb k k') eqn:E'; [|reflexivity].
      apply String.eqb_eq in E'. congruence.
    + now rewrite IH.
Qed.

Lemma has_property_set_other c k k' e :
  k' <> k -> has_property (set c k e) k' = has_property c k'.
Proof. intros H. unfold has_property. now rewrite own_set_other. Qed.

Lemma get_set_other c k k' e : k' <> k -> get (set c k e) k' = get c k'.
Proof. intros H. unfold get. now rewrite own_set_other. Qed.

Lemma has_property_delete_other c k k' :
  k' <> k -> has_property (delete c k) k' = has_property c k'.
Proof. intros H. unfold has_property. now rewrite own_delete_other. Qed.

Lemma get_delete_other c k k' : k' <> k -> get (delete c k) k' = get c k'.
Proof. intros H. unfold get. now rewrite own_delete_other. Qed.

Lemma put_back dir k (d : Directory) :
  get (dcontent dir) k = VEntry (EDirectory d) ->
  with_content dir (set (dcontent dir) k (EDirectory d)) = dir.
Proof.
  intros H. now rewrite (set_own _ _ _ (get_entry _ _ _ H)), with_content_same.
Qed.

Lemma has_property_empty k : has_property ([] : DirectoryContent) k = inherited k.
Proof. reflexivity. Qed.

Lemma get_empty k :
  get ([] : DirectoryContent) k = if inherited k then VInherited else VUndefined.
Proof. reflexivity. Qed.

Lemma get_has_property c k : get c k <> VUndefined -> has_property c k = true.
Proof.
  unfold get, has_property. destruct (own c k); [reflexivity|].
  destruct (inherited k); [reflexivity|congruence].
Qed.

Lemma fail_not_true (pe : bool) m x s : @fail bool pe m x s false <> Return true.
Proof. unfold fail. destruct pe; discriminate. Qed.

Lemma fail_not_TypeError {A : Type} (pe : bool) m x s (a : A) : fail pe m x s a <> TypeError.
Proof. unfold fail. destruct pe; discriminate. Qed.

(** ** The four creating walks have one shape *)

Ltac same_shape IH :=
  let s := fresh "s" in let rest := fresh "rest" in
  intros pe r segments; induction segments as [|s rest IH]; intros dir;
  [reflexivity|];
  cbn [createDirectory_loop writeFile_loop Part000.createDirectory_loop
       Part000._writeFile_loop create_loop];
  cbv zeta; rewrite ?IH;
  destruct (has_property (dcontent dir) s) eqn:Ehas; cbn [negb];
  [|destruct r; [|reflexivity]; destruct (isLast rest); try reflexivity];
  rewrite ?dcontent_with_content;
  try (destruct (get _ s) as [| |[?|?]|]; try reflexivity; now rewrite IH).

Lemma createDirectory_loop_shape :
  forall (pe r : bool) (segments : list string) dir,
    createDirectory_loop pe r segments dir
    = create_loop MiniFS_createDirectory (fun _ => new_Directory None) None
        pe r segments dir.
Proof. same_shape IH. Qed.

Lemma writeFile_loop_shape (content : Content) :
  forall (pe r : bool) (segments : list string) dir,
    writeFile_loop pe r content segments dir
    = create_loop MiniFS_writeFile (fun _ => new_Directory None)
        (Some (fun name => new_File name content)) pe r segments dir.
Proof. same_shape IH. Qed.

Lemma createDirectory000_loop_shape :
  forall (pe r : bool) (segments : list string) dir,
    Part000.createDirectory_loop pe r segments dir
    = create_loop MiniFS_createDirectory (fun name => new_Directory (Some name)) None
        pe r segments dir.
Proof. same_shape IH. Qed.

Lemma _writeFile_loop_shape (callback : Part000.WriteCallback) (whole : list string) :
  forall (pe r : bool) (segments : list string) dir,
    Part000._writeFile_loop pe r callback whole segments dir
    = create_loop MiniFS__writeFile (fun name => new_Directory (Some name))
        (Some (fun name => callback (new_File name Undefined))) pe r segments dir.
Proof. same_shape IH. Qed.

(** ** What holds of the shape *)

Lemma set_set c k e e' : set (set c k e) k e' = set c k e'.
Proof.
  induction c as [|[k0 e0] c' IH]; simpl.
  - now rewrite String.eqb_refl.
  - destruct (String.eqb k0 k) eqn:E; simpl; rewrite E; [reflexivity|].
    now rewrite IH.
Qed.

Section Shape.

Variable m : Method.
Variable new_dir : string -> Directory.
Hypothesis new_dir_empty : forall k, dcontent (new_dir k) = [].

Ltac create_step new_file dir s rest r :=
  cbn [create_loop]; cbv zeta;
  destruct (has_property (dcontent dir) s) eqn:Ehas; cbn [negb];
  [ destruct (get (dcontent dir) s) as [| |[f|d]|] eqn:Eget
  | destruct r;
    [ destruct new_file as [file|];
      [ destruct (isLast rest) eqn:Elast |];
      rewrite ?dcontent_with_content, ?get_set
    | ] ].

(** Below a directory that was just made nothing is refused. *)
Lemma create_loop_in_new (new_file : option (string -> File)) (pe : bool)
    (segments : list string) :
  forall dir,
    dcontent dir = [] ->
    fst (create_loop m new_dir new_file pe true segments dir) = Return true
    \/ fst (create_loop m new_dir new_file pe true segments dir) = TypeError.
Proof.
  induction segments as [|s rest IH]; intros dir Hempty; [now left|].
  cbn [create_loop]; cbv zeta. rewrite Hempty, has_property_empty, get_empty.
  destruct (inherited s); cbn [negb].
  - destruct rest; [left|right]; reflexivity.
  - assert (Hnew : forall o, o = Return true \/ o = TypeError ->
              forall d' : Directory, fst (o, d') = Return true \/ fst (o, d') = TypeError)
      by (intros o H d'; exact H).
    destruct new_file as [file|]; [destruct (isLast rest); [now left|]|];
      rewrite dcontent_with_content, get_set;
      specialize (IH (new_dir s) (new_dir_empty s));
      destruct (create_loop m new_dir _ pe true rest (new_dir s)); exact IH.
Qed.

(** A walk that reports a failure has changed nothing. *)
Lemma create_loop_all_or_nothing (new_file : option (string -> File)) (pe r : bool)
    (segments : list string) :
  forall dir,
    fst (create_loop m new_dir new_file pe r segments dir) = Return true
    \/ fst (create_loop m new_dir new_file pe r segments dir) = TypeError
    \/ snd (create_loop m new_dir new_file pe r segments dir) = dir.
Proof.
  induction segments as [|s rest IH]; intros dir; [now left|].
  create_step new_file dir s rest r; cbn [fst snd]; try solve [auto];
    try solve [destruct rest; cbn [off_tree fst snd]; auto].
  - specialize (IH d). destruct (create_loop m new_dir _ pe r rest d) as [o d'].
    cbn [fst snd] in *. destruct IH as [H|[H|H]]; auto.
    subst d'. right; right. now apply put_back.
  - match goal with
    | |- context [create_loop m new_dir ?nf pe true rest (new_dir s)] =>
        pose proof (create_loop_in_new nf pe rest (new_dir s) (new_dir_empty s)) as H
    end.
    destruct (create_loop m new_dir _ pe true rest (new_dir s)) as [o d'].
    cbn [fst] in *. destruct H as [H|H]; eauto.
  - match goal with
    | |- context [create_loop m new_dir ?nf pe true rest (new_dir s)] =>
        pose proof (create_loop_in_new nf pe rest (new_dir s) (new_dir_empty s)) as H
    end.
    destruct (create_loop m new_dir _ pe true rest (new_dir s)) as [o d'].
    cbn [fst] in *. destruct H as [H|H]; eauto.
Qed.

(** Without [recursive] nothing is ever made. *)
Lemma create_loop_not_recursive (new_file : option (string -> File)) (pe : bool)
    (segments : list string) :
  forall dir, snd (create_loop m new_dir new_file pe false segments dir) = dir.
Proof.
  induction segments as [|s rest IH]; intros dir; [reflexivity|].
  cbn [create_loop]; cbv zeta.
  destruct (has_property (dcontent dir) s); cbn [negb]; [|reflexivity].
  destruct (get (dcontent dir) s) as [| |[f|d]|] eqn:Eget; try reflexivity.
  specialize (IH d). destruct (create_loop m new_dir _ pe false rest d) as [o d'].
  cbn [snd] in *. subst d'. now apply put_back.
Qed.

(** The error mode decides how a failure is reported. *)
Lemma create_loop_mode (new_file : option (string -> File)) (pe r : bool)
    (segments : list string) :
  forall dir,
    if pe
    then fst (create_loop m new_dir new_file pe r segments dir) <> Return false
    else forall err, fst (create_loop m new_dir new_file pe r segments dir) <> Throw err.
Proof.
  induction segments as [|s rest IH]; intros dir.
  - destruct pe; cbn; [discriminate|intros; discriminate].
  - create_step new_file dir s rest r; cbn [fst snd];
      try solve [destruct pe; cbn; [discriminate|intros; discriminate]];
      try solve [destruct rest; destruct pe; cbn [off_tree];
                 first [discriminate|intros; discriminate]].
    + specialize (IH d). destruct (create_loop m new_dir _ pe r rest d). exact IH.
    + specialize (IH (new_dir s)).
      destruct (create_loop m new_dir _ pe true rest (new_dir s)). exact IH.
    + specialize (IH (new_dir s)).
      destruct (create_loop m new_dir _ pe true rest (new_dir s)). exact IH.
Qed.

End Shape.

(** A walk that makes directories only, once it has returned [true], returns
    [true] again and finds nothing left to make, whatever the options. *)
Lemma create_loop_again (m : Method) (new_dir : string -> Directory)
    (pe r : bool) (segments : list string) :
  forall dir dir',
    create_loop m new_dir None pe r segments dir = (Return true, dir') ->
    forall pe' r', create_loop m new_dir None pe' r' segments dir' = (Return true, dir').
Proof.
  induction segments as [|s rest IH]; intros dir dir' Hrun pe' r'.
  - cbn in *. congruence.
  - cbn [create_loop] in *; cbv zeta in *.
    assert (Hdone : forall (d0 n n' : Directory) o,
               create_loop m new_dir None pe r rest n = (o, n') ->
               (o, with_content d0 (set (dcontent d0) s (EDirectory n')))
               = (Return true, dir') ->
               (if negb (has_property (dcontent dir') s)
                then if r'
                     then match get (dcontent (with_content dir'
                                       (set (dcontent dir') s (EDirectory (new_dir s))))) s with
                          | VEntry (EFile _) =>
                              (fail pe' m is_a_file s false,
                               with_content dir'
                                 (set (dcontent dir') s (EDirectory (new_dir s))))
                          | VEntry (EDirectory nextEntry) =>
                              let '(r0, nextEntry') :=
                                create_loop m new_dir None pe' r' rest nextEntry in
                              (r0,
                               with_content
                                 (with_content dir'
                                    (set (dcontent dir') s (EDirectory (new_dir s))))
                                 (set (dcontent (with_content dir'
                                         (set (dcontent dir') s (EDirectory (new_dir s)))))
                                    s (EDirectory nextEntry')))
                          | _ => (off_tree rest,
                                  with_content dir'
                                    (set (dcontent dir') s (EDirectory (new_dir s))))
                          end
                     else (fail pe' m Directory_does_not_exist s false, dir')
                else match get (dcontent dir') s with
                     | VEntry (EFile _) => (fail pe' m is_a_file s false, dir')
                     | VEntry (EDirectory nextEntry) =>
                         let '(r0, nextEntry') :=
                           create_loop m new_dir None pe' r' rest nextEntry in
                         (r0, with_content dir'
                                (set (dcontent dir') s (EDirectory nextEntry')))
                     | _ => (off_tree rest, dir')
                     end)
               = (Return true, dir')).
    { intros d0 n n' o Hrec Heq. injection Heq as -> <-.
      rewrite dcontent_with_content, has_property_set, get_set. cbn [negb].
      rewrite (IH _ _ Hrec pe' r').
      now rewrite set_set. }
    destruct (has_property (dcontent dir) s) eqn:Ehas; cbn [negb] in Hrun.
    + destruct (get (dcontent dir) s) as [| |[f|d]|] eqn:Eget.
      * destruct rest; [|discriminate]. injection Hrun as <-.
        now rewrite Ehas, Eget.
      * destruct rest; [|discriminate]. injection Hrun as <-.
        now rewrite Ehas, Eget.
      * injection Hrun as Hf _. now apply fail_not_true in Hf.
      * destruct (create_loop m new_dir None pe r rest d) as [o n'] eqn:Hrec.
        exact (Hdone _ _ _ _ Hrec Hrun).
      * destruct rest; [|discriminate]. injection Hrun as <-.
        now rewrite Ehas, Eget.
    + destruct r.
      * rewrite dcontent_with_content, get_set in Hrun.
        destruct (create_loop m new_dir None pe true rest (new_dir s)) as [o n'] eqn:Hrec.
        exact (Hdone _ _ _ _ Hrec Hrun).
      * injection Hrun as Hf _. now apply fail_not_true in Hf.
Qed.

(** ** [remove] and [readEntry], step by step *)

Lemma remove_loop_all_or_nothing (pe : bool) (segments : list string) :
  forall dir,
    fst (remove_loop pe segments dir) = Return true
    \/ snd (remove_loop pe segments dir) = dir.
Proof.
  induction segments as [|s rest IH]; intros dir; [now left|].
  cbn [remove_loop]; cbv zeta.
  destruct (has_property (dcontent dir) s); cbn [negb]; [|now right].
  destruct (get (dcontent dir) s) as [| |[f|d]|] eqn:Eget;
    try (destruct (isLast rest); [now left|now right]); [now right|].
  destruct (isLast rest); [now left|].
  specialize (IH d). destruct (remove_loop pe rest d) as [o d'].
  cbn [fst snd] in *. destruct IH as [H|H]; [now left|].
  subst d'. right. now apply put_back.
Qed.

Lemma remove_loop_mode (pe : bool) (segments : list string) :
  forall dir,
    if pe
    then fst (remove_loop pe segments dir) <> Return false
    else forall err, fst (remove_loop pe segments dir) <> Throw err.
Proof.
  induction segments as [|s rest IH]; intros dir.
  - destruct pe; cbn; [discriminate|intros; discriminate].
  - cbn [remove_loop]; cbv zeta.
    destruct (has_property (dcontent dir) s); cbn [negb];
      [|destruct pe; cbn; [discriminate|intros; discriminate]].
    destruct (get (dcontent dir) s) as [| |[f|d]|] eqn:Eget;
      try (destruct (isLast rest); destruct pe; cbn;
           first [discriminate|intros; discriminate]).
    destruct (isLast rest);
      [destruct pe; cbn; [discriminate|intros; discriminate]|].
    specialize (IH d). destruct (remove_loop pe rest d). exact IH.
Qed.

Lemma has_property_truthy c k : has_property c k = true -> truthy (get c k) = true.
Proof.
  unfold has_property, get. destruct (own c k); [reflexivity|].
  now intros ->.
Qed.

(** [readEntry] hands on an entry or an inherited member, never [undefined];
    [null] is its sentinel, and only that. *)
Lemma readEntry_loop_mode (pe : bool) (whole segments : list string) :
  forall v : @Value TFileContent TData,
    truthy v = true ->
    if pe
    then forall r, readEntry_loop pe whole segments v = Return r -> truthy r = true
    else (forall err, readEntry_loop pe whole segments v <> Throw err)
         /\ (forall r, readEntry_loop pe whole segments v = Return r ->
               r <> VUndefined).
Proof.
  induction segments as [|s rest IH]; intros v Hv.
  - destruct pe; cbn.
    + intros r H. now injection H as <-.
    + split; [intros; discriminate|]. intros r H. injection H as <-.
      now destruct v.
  - cbn [readEntry_loop].
    destruct v as [| |[f|d]|]; try discriminate.
    + destruct pe; cbn; [intros; discriminate|].
      split; [intros; discriminate|]. intros r H. now injection H as <-.
    + destruct (has_property (dcontent d) s) eqn:Ehas; cbn [negb].
      * apply IH. now apply has_property_truthy.
      * destruct pe; cbn; [intros; discriminate|].
        split; [intros; discriminate|]. intros r H. now injection H as <-.
    + destruct pe; [intros; discriminate|]. split; intros; discriminate.
Qed.

(** ** The methods as a whole *)

(** X2. [createDirectory] is idempotent: once it has returned [true], the
    same call again -- with any options -- returns [true] and leaves the
    store as the first call left it. *)
Theorem createDirectory_again this path (options options' : option WriteOptions) :
  fst (createDirectory path options this) = Return true ->
  createDirectory path options' (snd (createDirectory path options this))
  = (Return true, snd (createDirectory path options this)).
Proof.
  unfold createDirectory. rewrite !createDirectory_loop_shape.
  destruct (create_loop _ _ _ _ _ _ (files this)) as [o d'] eqn:Hrun.
  cbn. intros ->.
  now rewrite (create_loop_again _ _ _ _ _ _ _ Hrun).
Qed.

(** X3. Reported failures are all-or-nothing: when [createDirectory] or
    [writeFile] returns [false] or throws one of its errors, the store is as
    it was -- whatever they create, they create on the way to [true] (or to
    a runtime [TypeError]); and [remove] changes the store only when it
    returns [true]. *)
Theorem reported_failures_change_nothing this path (content : Content)
    (options : option WriteOptions) :
  (fst (createDirectory path options this) = Return true
   \/ fst (createDirectory path options this) = TypeError
   \/ snd (createDirectory path options this) = this)
  /\ (fst (writeFile path content options this) = Return true
      \/ fst (writeFile path content options this) = TypeError
      \/ snd (writeFile path content options this) = this)
  /\ (fst (remove path this) = Return true
      \/ snd (remove path this) = this).
Proof.
  unfold createDirectory, writeFile, remove.
  rewrite createDirectory_loop_shape, writeFile_loop_shape.
  repeat split.
  - pose proof (create_loop_all_or_nothing MiniFS_createDirectory
                  (fun _ => new_Directory None) (fun _ => eq_refl) None
                  (preferErrors this) (get_recursive options)
                  (pathAsSegments path) (files this)) as H.
    destruct (create_loop _ _ _ _ _ _ _) as [o d']. cbn in *.
    destruct H as [H|[H|H]]; auto. subst d'. now rewrite with_files_same; auto.
  - pose proof (create_loop_all_or_nothing MiniFS_writeFile
                  (fun _ => new_Directory None) (fun _ => eq_refl)
                  (Some (fun name => new_File name content))
                  (preferErrors this) (get_recursive options)
                  (pathAsSegments path) (files this)) as H.
    destruct (create_loop _ _ _ _ _ _ _) as [o d']. cbn in *.
    destruct H as [H|[H|H]]; auto. subst d'. now rewrite with_files_same; auto.
  - pose proof (remove_loop_all_or_nothing (preferErrors this)
                  (pathAsSegments path) (files this)) as H.
    destruct (remove_loop _ _ _) as [o d']. cbn in *.
    destruct H as [H|H]; auto. subst d'. now rewrite with_files_same; auto.
Qed.

(** X4. With [{recursive: false}] nothing is ever made: [createDirectory]
    and [writeFile] leave the store as it was, however they end -- so
    [writeFile] cannot create a file without [recursive], not even in a
    directory that exists; the same holds in [part_000], with any
    callback. *)
Theorem not_recursive_makes_nothing this path (content : Content)
    (callback : Part000.WriteCallback) :
  snd (createDirectory path (Some {| recursive := Some false |}) this) = this
  /\ snd (writeFile path content (Some {| recursive := Some false |}) this) = this
  /\ snd (Part000.createDirectory path (Some {| recursive := Some false |}) this) = this
  /\ snd (Part000.writeFile path content (Some {| recursive := Some false |}) this)
     = this
  /\ snd (Part000.writeFileWithCallback path callback
            (Some {| recursive := Some false |}) this) = this.
Proof.
  unfold createDirectory, writeFile, Part000.createDirectory, Part000.writeFile,
    Part000.writeFileWithCallback, Part000._writeFile.
  cbn [get_recursive].
  rewrite createDirectory_loop_shape, writeFile_loop_shape,
    createDirectory000_loop_shape, !_writeFile_loop_shape.
  repeat split;
    match goal with
    | |- context [create_loop ?m ?nd ?nf ?pe false ?p ?d] =>
        pose proof (create_loop_not_recursive m nd nf pe p d) as H;
        destruct (create_loop m nd nf pe false p d) as [o d']; cbn in *;
        subst d'; apply with_files_same
    end.
Qed.

(** X5. The error mode is respected by every method: with [preferErrors]
    no method returns its sentinel ([false], [null]); without it no method
    throws one of the store's errors. *)
Theorem error_mode_is_respected this path (content : Content)
    (options : option WriteOptions) (read_options : option ReadOptions) :
  if preferErrors this
  then fst (createDirectory path options this) <> Return false
       /\ fst (writeFile path content options this) <> Return false
       /\ fst (remove path this) <> Return false
       /\ fst (readDirectory path read_options this) <> Return RD_null
       /\ fst (readFile path read_options this) <> Return RF_null
  else forall err,
       fst (createDirectory path options this) <> Throw err
       /\ fst (writeFile path content options this) <> Throw err
       /\ fst (remove path this) <> Throw err
       /\ fst (readDirectory path read_options this) <> Throw err
       /\ fst (readFile path read_options this) <> Throw err.
Proof.
  unfold createDirectory, writeFile, remove, readDirectory, readFile, readEntry.
  rewrite createDirectory_loop_shape, writeFile_loop_shape.
  pose proof (create_loop_mode MiniFS_createDirectory (fun _ => new_Directory None)
                None (preferErrors this) (get_recursive options)
                (pathAsSegments path) (files this)) as Hc.
  pose proof (create_loop_mode MiniFS_writeFile (fun _ => new_Directory None)
                (Some (fun name => new_File name content))
                (preferErrors this) (get_recursive options)
                (pathAsSegments path) (files this)) as Hw.
  pose proof (remove_loop_mode (preferErrors this) (pathAsSegments path) (files this))
    as Hr.
  pose proof (readEntry_loop_mode (preferErrors this) (pathAsSegments path)
                (pathAsSegments path) (VEntry (EDirectory (files this))) eq_refl)
    as He.
  destruct (create_loop MiniFS_createDirectory _ _ _ _ _ _) as [oc dc].
  destruct (create_loop MiniFS_writeFile _ _ _ _ _ _) as [ow dw].
  destruct (remove_loop _ _ _) as [or dr].
  destruct (readEntry_loop _ _ _ _) as [v|err0|];
    destruct (preferErrors this); cbn [fst snd] in *.
  - repeat split; auto.
    + destruct (instanceof_File v); [discriminate|].
      destruct (truthy v); [|discriminate].
      destruct (get_returnEntry read_options); [discriminate|].
      destruct v as [| |[f|d]|]; discriminate.
    + destruct v as [| |[f|d]|]; cbn; try discriminate.
      destruct (eq_undefined (fcontent f)); [discriminate|].
      destruct (get_returnEntry read_options); discriminate.
  - intros err. repeat split; auto.
    + destruct (instanceof_File v); [discriminate|].
      destruct (truthy v); [|discriminate].
      destruct (get_returnEntry read_options); [discriminate|].
      destruct v as [| |[f|d]|]; discriminate.
    + destruct v as [| |[f|d]|]; cbn; try discriminate.
      destruct (eq_undefined (fcontent f)); [discriminate|].
      destruct (get_returnEntry read_options); discriminate.
  - repeat split; auto; discriminate.
  - destruct He as [He _]. now elim (He err0).
  - repeat split; auto; discriminate.
  - intros err. repeat split; auto; discriminate.
Qed.

Lemma readEntry_loop_throws (pe : bool) (whole segments : list string) :
  forall (v : @Value TFileContent TData) err,
    readEntry_loop pe whole segments v = Throw err -> method err = MiniFS_readEntry.
Proof.
  induction segments as [|s rest IH]; intros v err; cbn; [discriminate|].
  destruct v as [| |[f|d]|]; try discriminate.
  - unfold fail. destruct pe; [|discriminate]. now intros [= <-].
  - destruct (has_property (dcontent d) s); cbn; [apply IH|].
    unfold fail. destruct pe; [|discriminate]. now intros [= <-].
Qed.

(** X6. With [preferErrors], a path that leads nowhere is reported by
    [readEntry] (or by the runtime): [readDirectory] and [readFile] never
    throw their own "does not exist". *)
Theorem readers_never_throw_does_not_exist this path
    (read_options : option ReadOptions) (subject : string) :
  preferErrors this = true ->
  fst (readDirectory path read_options this)
  <> Throw (mkError MiniFS_readDirectory does_not_exist subject)
  /\ fst (readFile path read_options this)
     <> Throw (mkError MiniFS_readFile does_not_exist subject).
Proof.
  intros Hpe. unfold readDirectory, readFile, readEntry.
  pose proof (readEntry_loop_mode (preferErrors this) (pathAsSegments path)
                (pathAsSegments path) (VEntry (EDirectory (files this))) eq_refl)
    as He.
  rewrite Hpe in *.
  destruct (readEntry_loop _ _ _ _) as [v|err0|] eqn:Hv; cbn [fst snd].
  - specialize (He v eq_refl). unfold fail. split.
    + destruct (instanceof_File v); [discriminate|]. rewrite He.
      destruct (get_returnEntry read_options); [discriminate|].
      destruct v as [| |[f|d]|]; discriminate.
    + destruct v as [| |[f|d]|]; cbn; try discriminate.
      destruct (eq_undefined (fcontent f)); [discriminate|].
      destruct (get_returnEntry read_options); discriminate.
  - apply readEntry_loop_throws in Hv.
    split; intros H; injection H as ->; discriminate.
  - split; discriminate.
Qed.

(** ** Reading what is there, and what is not *)

Lemma find_nonempty (segments : list string) dir e :
  find segments dir = Some e -> segments <> [].
Proof. destruct segments; [discriminate|discriminate]. Qed.

(** [readEntry] returns the entry the path names. *)
Lemma readEntry_loop_found (pe : bool) (whole segments : list string) :
  forall dir e,
    find segments dir = Some e ->
    readEntry_loop pe whole segments (VEntry (EDirectory dir)) = Return (VEntry e).
Proof.
  induction segments as [|s rest IH]; intros dir e; [discriminate|].
  cbn [find readEntry_loop].
  destruct (own (dcontent dir) s) as [e0|] eqn:Es; [|discriminate].
  rewrite (own_has_property _ _ _ Es), (own_get _ _ _ Es). cbn [negb].
  destruct rest as [|s2 rest2].
  - cbn. now intros [= ->].
  - cbn [isLast]. destruct e0 as [f|d]; [discriminate|]. apply IH.
Qed.

(** Where the path names nothing, and no segment is a name every object
    inherits, [readEntry] fails. *)
Lemma readEntry_loop_not_found (pe : bool) (whole segments : list string) :
  forall dir,
    segments <> [] ->
    forallb (fun k => negb (inherited k)) segments = true ->
    find segments dir = None ->
    exists x subject,
      readEntry_loop pe whole segments (VEntry (EDirectory dir))
      = fail pe MiniFS_readEntry x subject VNull.
Proof.
  induction segments as [|s rest IH]; intros dir Hne Hin; [congruence|].
  cbn [forallb] in Hin. apply andb_true_iff in Hin as [Hs Hrest].
  apply negb_true_iff in Hs.
  cbn [find readEntry_loop]. unfold has_property, get.
  destruct (own (dcontent dir) s) as [e0|] eqn:Es; rewrite ?Hs; cbn [negb].
  - destruct rest as [|s2 rest2]; [discriminate|]. cbn [isLast].
    destruct e0 as [f|d].
    + intros _. cbn. eauto.
    + apply IH; [discriminate|exact Hrest].
  - intros _. eauto.
Qed.

(** X7. Reading at a path that names an entry. A Directory is listed by
    [readDirectory] -- the keys of its content -- or returned as it is with
    [returnEntry], and refused by [readFile] ("is a directory"). A File is
    refused by [readDirectory] ("is a file"); [readFile] returns its
    content, or the file with [returnEntry], unless the content is
    [undefined] or [null]: then it fails with "has no content", with
    [returnEntry] too. *)
Theorem reading_what_is_there this path (read_options : option ReadOptions) e :
  find (pathAsSegments path) (files this) = Some e ->
  match e with
  | EDirectory d =>
      fst (readDirectory path read_options this)
      = Return (if get_returnEntry read_options then RD_entry (VEntry e)
                else RD_names (Object_keys (dcontent d)))
      /\ fst (readFile path read_options this)
         = fail (preferErrors this) MiniFS_readFile is_a_directory (render path) RF_null
  | EFile f =>
      fst (readDirectory path read_options this)
      = fail (preferErrors this) MiniFS_readDirectory is_a_file (render path) RD_null
      /\ fst (readFile path read_options this)
         = (if eq_undefined (fcontent f)
            then fail (preferErrors this) MiniFS_readFile has_no_content (render path)
                      RF_null
            else Return (if get_returnEntry read_options then RF_entry f
                         else RF_content (fcontent f)))
  end.
Proof.
  intros Hfind. unfold readDirectory, readFile, readEntry.
  rewrite (readEntry_loop_found _ _ _ _ _ Hfind).
  destruct e as [f|d]; cbn.
  - split; [reflexivity|].
    destruct (eq_undefined (fcontent f)); [reflexivity|].
    now destruct (get_returnEntry read_options).
  - split; [|reflexivity]. now destruct (get_returnEntry read_options).
Qed.

(** X8. Reading at a path that names nothing. If the path is not the root
    path, none of its segments is a name inherited from [Object.prototype],
    and it names no entry, then [readDirectory] and [readFile] return
    [null]; with [preferErrors] they fail with an error thrown by
    [readEntry]. *)
Theorem reading_what_is_not_there this path (read_options : option ReadOptions) :
  pathAsSegments path <> [] ->
  forallb (fun k => negb (inherited k)) (pathAsSegments path) = true ->
  find (pathAsSegments path) (files this) = None ->
  exists x subject,
    fst (readDirectory path read_options this)
    = (if preferErrors this then Throw (mkError MiniFS_readEntry x subject)
       else Return RD_null)
    /\ fst (readFile path read_options this)
       = (if preferErrors this then Throw (mkError MiniFS_readEntry x subject)
          else Return RF_null).
Proof.
  intros Hne Hin Hfind. unfold readDirectory, readFile, readEntry.
  destruct (readEntry_loop_not_found (preferErrors this) (pathAsSegments path)
              (pathAsSegments path) (files this) Hne Hin Hfind)
    as (x & subject & ->).
  exists x, subject. unfold fail.
  destruct (preferErrors this) eqn:Hpe; cbn; now split.
Qed.

(** ** What a call leaves alone *)

Lemma kept_same e : kept e e.
Proof. now destruct e. Qed.

Lemma find_head (rest : list string) k (d1 d2 : Directory) :
  own (dcontent d1) k = own (dcontent d2) k ->
  find (k :: rest) d1 = find (k :: rest) d2.
Proof. cbn [find]. now intros ->. Qed.

Lemma find_in_empty (segments : list string) dir :
  dcontent dir = [] -> find segments dir = None.
Proof. intros H. destruct segments; [reflexivity|]. cbn [find]. now rewrite H. Qed.

Lemma isLast_middle (l l' : list string) k : isLast (l ++ k :: l') = false.
Proof. now destruct l. Qed.

Lemma isLast_app_nonempty (l l' : list string) : l <> [] -> isLast (l ++ l') = false.
Proof. destruct l; [congruence|reflexivity]. Qed.

(** A step of a walk touches one property of the content object. *)
Lemma create_loop_other (m : Method) (new_dir : string -> Directory)
    (new_file : option (string -> File)) (pe r : bool) (rest : list string) s k dir :
  k <> s ->
  own (dcontent (snd (create_loop m new_dir new_file pe r (s :: rest) dir))) k
  = own (dcontent dir) k.
Proof.
  intros Hne. cbn [create_loop]; cbv zeta.
  destruct (has_property (dcontent dir) s); cbn [negb].
  - destruct (get (dcontent dir) s) as [| |[f|d]|]; try reflexivity.
    destruct (create_loop m new_dir new_file pe r rest d). cbn.
    now apply own_set_other.
  - destruct r; [|reflexivity].
    destruct new_file as [file|]; [destruct (isLast rest)|];
      rewrite ?dcontent_with_content, ?get_set;
      try destruct (create_loop m new_dir _ pe true rest (new_dir s)); cbn;
      now rewrite ?own_set_other by exact Hne.
Qed.

Lemma remove_loop_other (pe : bool) (rest : list string) s k dir :
  k <> s ->
  own (dcontent (snd (remove_loop pe (s :: rest) dir))) k = own (dcontent dir) k.
Proof.
  intros Hne. cbn [remove_loop]; cbv zeta.
  destruct (has_property (dcontent dir) s); cbn [negb]; [|reflexivity].
  destruct (get (dcontent dir) s) as [| |[f|d]|]; try reflexivity;
    destruct (isLast rest); try reflexivity;
    try (cbn; now apply own_delete_other).
  destruct (remove_loop pe rest d). cbn. now apply own_set_other.
Qed.

(** What was there before a creating walk is there after it. *)
Lemma create_loop_keeps (m : Method) (new_dir : string -> Directory)
    (new_file : option (string -> File)) (pe r : bool) (segments : list string) :
  forall dir (q : list string) e,
    find q dir = Some e ->
    exists e',
      find q (snd (create_loop m new_dir new_file pe r segments dir)) = Some e'
      /\ kept e e'.
Proof.
  induction segments as [|s rest IH]; intros dir q e Hf.
  - exists e. split; [exact Hf|apply kept_same].
  - destruct q as [|k q']; [discriminate|].
    destruct (String.eqb_spec k s) as [->|Hne].
    + cbn [find] in Hf.
      destruct (own (dcontent dir) s) as [e0|] eqn:Es; [|discriminate].
      cbn [create_loop]; cbv zeta.
      rewrite (own_has_property _ _ _ Es), (own_get _ _ _ Es). cbn [negb].
      destruct e0 as [f0|d0].
      * cbn [snd find]. rewrite Es. exists e. split; [exact Hf|apply kept_same].
      * specialize (IH d0 q' e).
        destruct (create_loop m new_dir new_file pe r rest d0) as [o n'].
        cbn [snd find] in *. rewrite dcontent_with_content, own_set.
        destruct (isLast q').
        -- injection Hf as <-. now exists (EDirectory n').
        -- exact (IH Hf).
    + rewrite (find_head q' k _ dir (create_loop_other _ _ _ _ _ _ _ _ _ Hne)).
      exists e. split; [exact Hf|apply kept_same].
Qed.

(** A creating walk along [common ++ b :: _] changes nothing that is found
    along [common ++ a :: _], for [a <> b]. *)
Lemma create_loop_frame (m : Method) (new_dir : string -> Directory)
    (new_file : option (string -> File)) (pe r : bool)
    (new_dir_empty : forall k, dcontent (new_dir k) = [])
    (common : list string) (a b : string) (q' p' : list string) :
  a <> b ->
  forall dir,
    find (common ++ a :: q')
         (snd (create_loop m new_dir new_file pe r (common ++ b :: p') dir))
    = find (common ++ a :: q') dir.
Proof.
  intros Hne. destruct new_file as [file|];
    (induction common as [|s cs IH]; intros dir;
     [apply find_head; now apply create_loop_other|]).
  all: cbn [app find create_loop]; cbv zeta; rewrite !isLast_middle.
  all: unfold has_property, get.
  all: destruct (own (dcontent dir) s) as [[f0|d0]|] eqn:Es; cbn [negb];
    [ cbn [snd]; now rewrite Es
    | specialize (IH d0);
      destruct (create_loop m new_dir _ pe r (cs ++ b :: p') d0) as [o n'];
      cbn [snd] in *; now rewrite dcontent_with_content, own_set
    | ].
  all: destruct (inherited s); cbn [negb]; [cbn [snd]; now rewrite Es|].
  all: destruct r; [|cbn [snd]; now rewrite Es].
  all: rewrite dcontent_with_content, own_set.
  all: specialize (IH (new_dir s)).
  all: destruct (create_loop m new_dir _ pe true (cs ++ b :: p') (new_dir s)) as [o n'].
  all: simpl snd in IH; simpl snd; rewrite dcontent_with_content, own_set.
  all: rewrite IH; now apply find_in_empty.
Qed.

Lemma remove_loop_frame (pe : bool) (common : list string) (a b : string)
    (q' p' : list string) :
  a <> b ->
  forall dir,
    find (common ++ a :: q') (snd (remove_loop pe (common ++ b :: p') dir))
    = find (common ++ a :: q') dir.
Proof.
  intros Hne. induction common as [|s cs IH]; intros dir.
  - apply find_head. now apply remove_loop_other.
  - cbn [app find remove_loop]; cbv zeta. rewrite !isLast_middle.
    unfold has_property, get.
    destruct (own (dcontent dir) s) as [[f0|d0]|] eqn:Es; cbn [negb].
    + cbn [snd]. now rewrite Es.
    + specialize (IH d0).
      destruct (remove_loop pe (cs ++ b :: p') d0) as [o n'].
      simpl snd in *. now rewrite dcontent_with_content, own_set.
    + destruct (inherited s); cbn [negb snd]; now rewrite Es.
Qed.

(** After a [remove] that returned [true], the path and everything below
    it name nothing. *)
Lemma remove_loop_gone (pe : bool) (segments : list string) :
  forall dir dir' (below : list string),
    segments <> [] ->
    remove_loop pe segments dir = (Return true, dir') ->
    find (segments ++ below) dir' = None.
Proof.
  induction segments as [|s rest IH]; intros dir dir' below Hne; [congruence|].
  cbn [remove_loop]; cbv zeta.
  destruct (has_property (dcontent dir) s); cbn [negb];
    [|intros [= Hf _]; now apply fail_not_true in Hf].
  assert (Hlast : forall (d0 : Directory),
            (Return true, with_content d0 (delete (dcontent d0) s))
            = (@Return bool true, dir') ->
            find ((s :: rest) ++ below) dir' = None).
  { intros d0 [= <-]. cbn [app find]. now rewrite dcontent_with_content, own_delete. }
  destruct (get (dcontent dir) s) as [| |[f|d]|];
    try (destruct (isLast rest); [apply Hlast|discriminate]).
  - intros [= Hf _]. now apply fail_not_true in Hf.
  - destruct rest as [|s2 rest2]; [apply Hlast|]. cbn [isLast].
    destruct (remove_loop pe (s2 :: rest2) d) as [o n'] eqn:Hrec.
    intros [= -> <-]. cbn [app find].
    rewrite dcontent_with_content, own_set. cbn [isLast].
    exact (IH d n' below ltac:(discriminate) Hrec).
Qed.

(** X9. [createDirectory] and [writeFile] only add: an entry that a path
    named before the call is named by it after the call -- a File is the
    same file, with its name, content and data, and a Directory is still a
    Directory. So in [part_000], for [createDirectory], [writeFile] and
    [writeFileWithCallback] with any callback. *)
Theorem creating_keeps_what_is_there this path (content : Content)
    (options : option WriteOptions) (callback : Part000.WriteCallback)
    (q : list string) e :
  find q (files this) = Some e ->
  (exists e', find q (files (snd (createDirectory path options this))) = Some e'
              /\ kept e e')
  /\ (exists e', find q (files (snd (writeFile path content options this))) = Some e'
                 /\ kept e e')
  /\ (exists e', find q (files (snd (Part000.createDirectory path options this)))
                 = Some e' /\ kept e e')
  /\ (exists e', find q (files (snd (Part000.writeFile path content options this)))
                 = Some e' /\ kept e e')
  /\ (exists e', find q (files (snd (Part000.writeFileWithCallback path callback
                                       options this))) = Some e' /\ kept e e').
Proof.
  intros Hf.
  unfold createDirectory, writeFile, Part000.createDirectory, Part000.writeFile,
    Part000.writeFileWithCallback, Part000._writeFile.
  rewrite createDirectory_loop_shape, writeFile_loop_shape,
    createDirectory000_loop_shape, !_writeFile_loop_shape.
  repeat split;
    match goal with
    | |- context [create_loop ?m ?nd ?nf ?pe ?r ?p ?d] =>
        pose proof (create_loop_keeps m nd nf pe r p d q e Hf) as H;
        destruct (create_loop m nd nf pe r p d) as [o d']; exact H
    end.
Qed.

(** X10. A call at one path leaves alone what lies off that path: if the
    path of the call and another path part ways -- after a common prefix the
    one goes on with [b], the other with [a <> b] -- then the other path
    names after the call exactly what it named before, for
    [createDirectory], [writeFile] and [remove], however the call ends. *)
Theorem calls_leave_other_paths_alone this path (content : Content)
    (options : option WriteOptions) (common : list string) (a b : string)
    (q' p' : list string) :
  a <> b ->
  pathAsSegments path = common ++ b :: p' ->
  find (common ++ a :: q') (files (snd (createDirectory path options this)))
  = find (common ++ a :: q') (files this)
  /\ find (common ++ a :: q') (files (snd (writeFile path content options this)))
     = find (common ++ a :: q') (files this)
  /\ find (common ++ a :: q') (files (snd (remove path this)))
     = find (common ++ a :: q') (files this).
Proof.
  intros Hne Hpath. unfold createDirectory, writeFile, remove.
  rewrite createDirectory_loop_shape, writeFile_loop_shape, Hpath.
  repeat split.
  - pose proof (create_loop_frame MiniFS_createDirectory (fun _ => new_Directory None)
                  None (preferErrors this) (get_recursive options) (fun _ => eq_refl)
                  common a b q' p' Hne (files this)) as H.
    destruct (create_loop _ _ _ _ _ _ _). exact H.
  - pose proof (create_loop_frame MiniFS_writeFile (fun _ => new_Directory None)
                  (Some (fun name => new_File name content))
                  (preferErrors this) (get_recursive options) (fun _ => eq_refl)
                  common a b q' p' Hne (files this)) as H.
    destruct (create_loop _ _ _ _ _ _ _). exact H.
  - pose proof (remove_loop_frame (preferErrors this) common a b q' p' Hne
                  (files this)) as H.
    destruct (remove_loop _ _ _). exact H.
Qed.

(** X11. What [remove] has removed is gone, with all that was below it:
    after a [remove] of a path other than the root path that returned
    [true], neither the path nor any path that continues it names an
    entry. *)
Theorem removed_is_gone this path (below : list string) :
  pathAsSegments path <> [] ->
  fst (remove path this) = Return true ->
  find (pathAsSegments path ++ below) (files (snd (remove path this))) = None.
Proof.
  intros Hne. unfold remove.
  destruct (remove_loop _ _ _) as [o d'] eqn:Hrun. cbn. intros ->.
  exact (remove_loop_gone _ _ _ _ below Hne Hrun).
Qed.

(** ** New directories, and names that are taken *)

Lemma create_loop_new_path (m : Method) (new_dir : string -> Directory) (pe : bool)
    (new_dir_empty : forall k, dcontent (new_dir k) = [])
    (segments : list string) :
  forall dir,
    forallb (fun k => negb (inherited k)) segments = true ->
    has_property (dcontent dir) (hd "" segments) = false ->
    segments <> [] ->
    exists dir' d,
      create_loop m new_dir None pe true segments dir = (Return true, dir')
      /\ find segments dir' = Some (EDirectory d)
      /\ dcontent d = [].
Proof.
  induction segments as [|s rest IH]; intros dir Hin Hmissing Hne; [congruence|].
  cbn [forallb] in Hin. apply andb_true_iff in Hin as [_ Hrest].
  cbn [hd] in Hmissing. cbn [create_loop]; cbv zeta.
  rewrite Hmissing. cbn [negb]. rewrite dcontent_with_content, get_set.
  destruct rest as [|s2 rest2].
  - cbn [create_loop find isLast]. do 2 eexists. split; [reflexivity|].
    rewrite dcontent_with_content, own_set. split; [reflexivity|apply new_dir_empty].
  - destruct (IH (new_dir s) Hrest) as (n' & d & Hrun & Hfind & Hd);
      [|discriminate|].
    { cbn [hd]. rewrite new_dir_empty, has_property_empty.
      cbn [forallb] in Hrest. apply andb_true_iff in Hrest as [H _].
      now apply negb_true_iff in H. }
    rewrite Hrun. do 2 eexists. split; [reflexivity|].
    remember (s2 :: rest2) as rest eqn:Erest.
    cbn [find]. rewrite dcontent_with_content, own_set, Erest. cbn [isLast].
    rewrite <- Erest. split; [exact Hfind|exact Hd].
Qed.

(** X12. A new directory is empty: where the first segment of the path is
    not in the root and no segment is a name inherited from
    [Object.prototype], [createDirectory(path)] returns [true] and
    [readDirectory(path)] then returns the empty list. *)
Theorem createDirectory_then_readDirectory this path :
  pathAsSegments path <> [] ->
  forallb (fun k => negb (inherited k)) (pathAsSegments path) = true ->
  has_property (dcontent (files this)) (hd "" (pathAsSegments path)) = false ->
  fst (createDirectory path None this) = Return true
  /\ fst (readDirectory path None (snd (createDirectory path None this)))
     = Return (RD_names []).
Proof.
  intros Hne Hin Hmissing. unfold createDirectory. cbn [get_recursive].
  rewrite createDirectory_loop_shape.
  destruct (create_loop_new_path MiniFS_createDirectory (fun _ => new_Directory None)
              (preferErrors this) (fun _ => eq_refl) _ _ Hin Hmissing Hne)
    as (dir' & d & -> & Hfind & Hd).
  cbn [fst snd]. split; [reflexivity|].
  pose proof (reading_what_is_there (with_files this dir') path None (EDirectory d))
    as H.
  destruct (H Hfind) as [Hrd _]. rewrite Hrd, Hd. reflexivity.
Qed.

Lemma delete_absent c k : own c k = None -> delete c k = c.
Proof.
  unfold delete.
  induction c as [|[k0 e0] c' IH]; cbn [filter fst own]; [reflexivity|].
  destruct (String.eqb k0 k); [discriminate|]. cbn [negb]. intros H. now rewrite IH.
Qed.

(** X13. The names every object inherits are taken. Where [k] is a property
    name of [Object.prototype] and no entry of the root, the path [k] is
    "in" the root though nothing is there: [createDirectory], [writeFile]
    and [remove] return [true] and change nothing -- no entry can be made
    under that name --, [readFile] finds "a directory", and [readDirectory]
    ends in a [TypeError]. *)
Theorem inherited_names_are_taken this path k (content : Content)
    (options : option WriteOptions) :
  pathAsSegments path = [k] ->
  inherited k = true ->
  own (dcontent (files this)) k = None ->
  createDirectory path options this = (Return true, this)
  /\ writeFile path content options this = (Return true, this)
  /\ remove path this = (Return true, this)
  /\ fst (readFile path None this)
     = fail (preferErrors this) MiniFS_readFile is_a_directory (render path) RF_null
  /\ fst (readDirectory path None this) = TypeError.
Proof.
  intros Hpath Hk Hown.
  unfold createDirectory, writeFile, remove, readFile, readDirectory, readEntry.
  rewrite Hpath. cbn. unfold has_property, get. rewrite Hown, Hk. cbn.
  rewrite (delete_absent _ _ Hown), with_content_same, with_files_same.
  repeat split.
Qed.

(** ** The order of a listing *)

Lemma insert_index_perm {A : Type} (n : N) (x : A) (l : list (N * A)) :
  Permutation (map snd (insert_index n x l)) (x :: map snd l).
Proof.
  induction l as [|[m0 y] l' IH]; cbn; [reflexivity|].
  destruct (n <? m0)%N; cbn; [reflexivity|].
  rewrite IH. apply perm_swap.
Qed.

Lemma property_order_perm {A : Type} (key : A -> string) (l : list A) :
  Permutation (property_order key l) l.
Proof.
  unfold property_order.
  induction l as [|x l' IH]; cbn; [reflexivity|].
  unfold is_index at 1.
  destruct (array_index (key x)); cbn.
  - rewrite insert_index_perm. cbn. now apply perm_skip.
  - rewrite <- Permutation_middle. now apply perm_skip.
Qed.

Lemma property_order_plain {A : Type} (key : A -> string) (l : list A) :
  forallb (fun x => negb (is_index key x)) l = true ->
  property_order key l = l.
Proof.
  unfold property_order. intros H.
  assert (Hi : indexed key l = []).
  { induction l as [|x l' IH]; cbn in *; [reflexivity|].
    apply andb_true_iff in H as [Hx Hl]. unfold is_index in Hx.
    destruct (array_index (key x)); [discriminate|]. now apply IH. }
  rewrite Hi. cbn.
  induction l as [|x l' IH]; cbn in *; [reflexivity|].
  apply andb_true_iff in H as [Hx Hl]. rewrite Hx. f_equal. apply IH; [exact Hl|].
  unfold is_index in Hx. destruct (array_index (key x)); [discriminate|exact Hi].
Qed.

Lemma Object_keys_perm c : Permutation (Object_keys c) (map fst c).
Proof. unfold Object_keys. apply Permutation_map, property_order_perm. Qed.

(** X14. [readDirectory] lists the names of the entries of the directory,
    each once: the listing is a rearrangement of the keys of its content
    object, and it is the keys in the order the entries were made when none
    of them is an array index. *)
Theorem readDirectory_lists_the_entries this path (d : Directory) :
  find (pathAsSegments path) (files this) = Some (EDirectory d) ->
  exists names,
    fst (readDirectory path None this) = Return (RD_names names)
    /\ Permutation names (map fst (dcontent d))
    /\ (forallb (fun p => negb (is_index fst p)) (dcontent d) = true ->
        names = map fst (dcontent d)).
Proof.
  intros Hfind.
  destruct (reading_what_is_there this path None _ Hfind) as [Hrd _].
  exists (Object_keys (dcontent d)). split; [exact Hrd|].
  split; [apply Object_keys_perm|].
  intros Hplain. unfold Object_keys. now rewrite property_order_plain.
Qed.

(** ** The walk over the whole tree *)

Lemma Directory_tree_ind (P : Directory -> Prop) :
  (forall n c x, (forall k d, In (k, EDirectory d) c -> P d) -> P (mkDirectory n c x)) ->
  forall d, P d.
Proof.
  intros H. fix IH 1. intros [n c x]. apply H.
  induction c as [|[k e] c' IHc]; intros k0 d0 Hin; [contradiction|].
  destruct Hin as [Heq|Hin].
  - destruct e as [f|d]; [discriminate|].
    injection Heq as _ <-. apply IH.
  - exact (IHc k0 d0 Hin).
Qed.

Lemma walk_from_eq (n : option string) c (x : option TData) (prefix : list string) :
  walk_from (mkDirectory n c x) prefix
  = flat_map snd
      (property_order fst
         (map (fun p : string * Entry =>
                 (fst p,
                  (prefix ++ [fst p], snd p)
                    :: match snd p with
                       | EDirectory d => walk_from d (prefix ++ [fst p])
                       | EFile _ => []
                       end))
              c)).
Proof.
  rewrite flat_map_concat_map. cbn [walk_from]. do 3 f_equal.
  induction c as [|[k e] c' IH]; [reflexivity|]. cbn [map fst snd]. now rewrite <- IH.
Qed.

Lemma everywhere_here (ok : DirectoryContent -> bool) n c (x : option TData) :
  everywhere ok (mkDirectory n c x) = true -> ok c = true.
Proof. cbn. intros H. now apply andb_true_iff in H as [H _]. Qed.

Lemma everywhere_child (ok : DirectoryContent -> bool) n c (x : option TData) k
    (d : Directory) :
  everywhere ok (mkDirectory n c x) = true ->
  In (k, EDirectory d) c ->
  everywhere ok d = true.
Proof.
  cbn [everywhere]. intros H. apply andb_true_iff in H as [_ H]. revert H.
  induction c as [|[k0 [f0|d0]] c' IH]; intros H Hin; [contradiction| |].
  - destruct Hin as [Heq|Hin]; [discriminate|]. now apply IH.
  - apply andb_true_iff in H as [Hd Hc]. destruct Hin as [Heq|Hin].
    + now injection Heq as _ <-.
    + now apply IH.
Qed.

Lemma own_In c k e : own c k = Some e -> In (k, e) c.
Proof.
  induction c as [|[k0 e0] c' IH]; cbn; [discriminate|].
  destruct (String.eqb_spec k0 k) as [->|Hne].
  - intros [= ->]. now left.
  - intros H. right. now apply IH.
Qed.

Lemma unique_own c k e : unique_keys c = true -> In (k, e) c -> own c k = Some e.
Proof.
  induction c as [|[k0 e0] c' IH]; cbn; [contradiction|].
  destruct (own c' k0) eqn:E0; [discriminate|]. intros Hu [Heq|Hin].
  - injection Heq as -> ->. now rewrite String.eqb_refl.
  - destruct (String.eqb_spec k0 k) as [->|Hne].
    + rewrite (IH Hu Hin) in E0. discriminate.
    + now apply IH.
Qed.

Lemma walk_from_complete (q : list string) :
  forall dir (prefix : list string) e,
    find q dir = Some e -> In (prefix ++ q, e) (walk_from dir prefix).
Proof.
  induction q as [|k q' IH]; intros [n c x] prefix e; [discriminate|].
  cbn [find dcontent]. destruct (own c k) as [e0|] eqn:Ek; [|discriminate].
  intros Hf. rewrite walk_from_eq. apply in_flat_map.
  eexists. split.
  - apply (Permutation_in _ (Permutation_sym (property_order_perm fst _))).
    apply in_map. exact (own_In _ _ _ Ek).
  - cbn [fst snd]. destruct (isLast q') eqn:El.
    + injection Hf as <-. destruct q'; [|discriminate]. now left.
    + right. destruct e0 as [f|d]; [discriminate|].
      replace (prefix ++ k :: q') with ((prefix ++ [k]) ++ q')
        by now rewrite <- app_assoc.
      now apply IH.
Qed.

Lemma walk_from_sound :
  forall dir (prefix p : list string) e,
    everywhere unique_keys dir = true ->
    In (p, e) (walk_from dir prefix) ->
    exists q, p = prefix ++ q /\ find q dir = Some e.
Proof.
  intros dir. induction dir as [n c x IH] using Directory_tree_ind.
  intros prefix p e Hu. rewrite walk_from_eq. intros Hin.
  apply in_flat_map in Hin as (item & Hitem & Hin).
  apply (Permutation_in _ (property_order_perm fst _)) in Hitem.
  apply in_map_iff in Hitem as ([k e0] & <- & Hkc). cbn [fst snd] in Hin.
  pose proof (unique_own _ _ _ (everywhere_here _ _ _ _ Hu) Hkc) as Hown.
  destruct Hin as [Heq|Hin].
  - injection Heq as <- <-. exists [k]. split; [reflexivity|].
    cbn [find dcontent isLast]. now rewrite Hown.
  - destruct e0 as [f|d]; [contradiction|].
    destruct (IH k d Hkc (prefix ++ [k]) p e (everywhere_child _ _ _ _ _ _ Hu Hkc) Hin)
      as (q' & -> & Hfind).
    exists (k :: q'). split; [now rewrite <- app_assoc|].
    cbn [find dcontent]. rewrite Hown.
    destruct q' as [|k' q'']; [discriminate|]. exact Hfind.
Qed.

Lemma walk_from_length :
  forall dir (prefix : list string),
    length (walk_from dir prefix) = count_entries dir.
Proof.
  intros dir. induction dir as [n c x IH] using Directory_tree_ind.
  intros prefix. rewrite walk_from_eq.
  rewrite (Permutation_length
             (Permutation_flat_map snd (property_order_perm fst _))).
  cbn [count_entries].
  induction c as [|[k [f|d]] c' IHc]; [reflexivity| |].
  - cbn [map flat_map fst snd app length]. f_equal.
    apply IHc. intros k0 d0 H. apply (IH k0 d0). now right.
  - cbn [map flat_map fst snd app length]. rewrite length_app. f_equal. f_equal.
    + apply (IH k d). now left.
    + apply IHc. intros k0 d0 H. apply (IH k0 d0). now right.
Qed.

(** X15. [walk] yields what is in the tree, and only that: on a store whose
    content objects have unique keys, a pair [(p, e)] is among the pairs
    [walk] yields exactly when the path [p] names the entry [e]; [readEntry]
    at a yielded path returns the yielded entry. *)
Theorem walk_yields_what_is_there this (p : list string) e :
  everywhere unique_keys (files this) = true ->
  (In (p, e) (fst (walk this)) <-> find p (files this) = Some e)
  /\ (In (p, e) (fst (walk this)) ->
      fst (readEntry (PSegments p) this) = Return (VEntry e)).
Proof.
  intros Hu. unfold walk. cbn [fst].
  assert (Hiff : In (p, e) (walk_from (files this) []) <-> find p (files this) = Some e).
  { split.
    - intros Hin. destruct (walk_from_sound _ _ _ _ Hu Hin) as (q & -> & Hf).
      exact Hf.
    - intros Hf. exact (walk_from_complete p _ [] e Hf). }
  split; [exact Hiff|].
  intros Hin. apply Hiff in Hin. unfold readEntry. cbn [fst pathAsSegments].
  now apply readEntry_loop_found.
Qed.

(** X16. [walk] yields every entry below the root, each once: the number of
    pairs is the number of entries of the tree; and it leaves the store as
    it was. *)
Theorem walk_yields_every_entry_once this :
  length (fst (walk this)) = count_entries (files this)
  /\ snd (walk this) = this.
Proof. split; [apply walk_from_length|reflexivity]. Qed.

(** ** Trees the methods build *)

Lemma everywhere_iff (ok : DirectoryContent -> bool) dir :
  everywhere ok dir = true
  <-> ok (dcontent dir) = true
      /\ forall k (d : Directory), In (k, EDirectory d) (dcontent dir) ->
                                   everywhere ok d = true.
Proof.
  destruct dir as [n c x]. split.
  - intros H. split; [exact (everywhere_here _ _ _ _ H)|].
    intros k d. exact (everywhere_child _ _ _ _ _ _ H).
  - cbn [dcontent everywhere]. intros [Hok Hbelow]. rewrite Hok. cbn [andb]. clear Hok.
    induction c as [|[k0 [f0|d0]] c' IH]; [reflexivity| |].
    + apply IH. intros k d H. apply (Hbelow k d). now right.
    + rewrite (Hbelow k0 d0 (or_introl eq_refl)). cbn [andb].
      apply IH. intros k d H. apply (Hbelow k d). now right.
Qed.

Lemma In_set c k e k' e' :
  In (k', e') (set c k e) -> (k' = k /\ e' = e) \/ In (k', e') c.
Proof.
  induction c as [|[k0 e0] c' IH]; cbn.
  - intros [[= <- <-]|[]]. now left.
  - destruct (String.eqb_spec k0 k) as [->|Hne]; cbn.
    + intros [[= <- <-]|H]; [now left|now right; right].
    + intros [H|H]; [now right; left|].
      destruct (IH H) as [H'|H']; [now left|now right; right].
Qed.

Lemma In_delete c k k' e' : In (k', e') (delete c k) -> In (k', e') c.
Proof. unfold delete. intros H. now apply filter_In in H as [H _]. Qed.

Lemma unique_keys_set c k e : unique_keys (set c k e) = unique_keys c.
Proof.
  induction c as [|[k0 e0] c' IH]; cbn; [reflexivity|].
  destruct (String.eqb_spec k0 k) as [->|Hne]; cbn; [reflexivity|].
  rewrite own_set_other by exact Hne. now rewrite IH.
Qed.

Lemma own_delete_none c k k' : own c k' = None -> own (delete c k) k' = None.
Proof.
  intros H. destruct (String.eqb_spec k' k) as [->|Hne].
  - apply own_delete.
  - now rewrite own_delete_other.
Qed.

Lemma unique_keys_delete c k : unique_keys c = true -> unique_keys (delete c k) = true.
Proof.
  induction c as [|[k0 e0] c' IH]; cbn [unique_keys]; [reflexivity|].
  destruct (own c' k0) eqn:E0; [discriminate|]. intros Hu.
  unfold delete. cbn [filter fst]. destruct (negb (String.eqb k0 k)).
  - cbn [unique_keys]. fold (delete c' k). rewrite (own_delete_none _ _ _ E0).
    now apply IH.
  - now apply IH.
Qed.

Section Built.

Variable dir_name : string -> option string.

Lemma built_set c k e :
  built dir_name c = true ->
  inherited k = false ->
  made_as dir_name k e = true ->
  built dir_name (set c k e) = true.
Proof.
  unfold built. intros H Hk He. apply andb_true_iff in H as [Hu Hall].
  rewrite unique_keys_set, Hu. cbn [andb].
  induction c as [|[k0 e0] c' IH]; cbn [set forallb fst snd].
  - now rewrite Hk, He.
  - cbn [forallb fst snd unique_keys] in *.
    apply andb_true_iff in Hall as [H0 Hall].
    destruct (own c' k0); [discriminate|].
    destruct (String.eqb_spec k0 k) as [->|Hne]; cbn [forallb fst snd].
    + now rewrite Hk, He, Hall.
    + rewrite H0. cbn [andb]. now apply IH.
Qed.

Lemma built_delete c k : built dir_name c = true -> built dir_name (delete c k) = true.
Proof.
  unfold built. intros H. apply andb_true_iff in H as [Hu Hall].
  rewrite (unique_keys_delete _ _ Hu). cbn [andb].
  apply forallb_forall. intros p Hp. unfold delete in Hp.
  apply filter_In in Hp as [Hp _].
  exact (proj1 (forallb_forall _ _) Hall p Hp).
Qed.

Lemma built_entry c k e :
  built dir_name c = true ->
  own c k = Some e ->
  inherited k = false /\ made_as dir_name k e = true.
Proof.
  unfold built. intros H Hown. apply andb_true_iff in H as [_ Hall].
  pose proof (proj1 (forallb_forall _ _) Hall _ (own_In _ _ _ Hown)) as H.
  cbn [fst snd] in H. apply andb_true_iff in H as [H1 H2].
  now apply negb_true_iff in H1.
Qed.

Lemma made_as_same_name k (d d' : Directory) :
  dname d' = dname d ->
  made_as dir_name k (EDirectory d) = true ->
  made_as dir_name k (EDirectory d') = true.
Proof. cbn. now intros ->. Qed.

(** Putting a well-built directory in the place of a directory, or as a new
    entry, keeps a tree well built. *)
Lemma everywhere_put dir k (d' : Directory) :
  everywhere (built dir_name) dir = true ->
  everywhere (built dir_name) d' = true ->
  inherited k = false ->
  made_as dir_name k (EDirectory d') = true ->
  everywhere (built dir_name)
    (with_content dir (set (dcontent dir) k (EDirectory d'))) = true.
Proof.
  intros Hdir Hd' Hk Hmade. apply everywhere_iff in Hdir as [Hok Hbelow].
  apply everywhere_iff. rewrite dcontent_with_content. split.
  - now apply built_set.
  - intros k0 d0 Hin. apply In_set in Hin as [[_ [= ->]]|Hin]; [exact Hd'|].
    exact (Hbelow k0 d0 Hin).
Qed.

Lemma everywhere_put_file dir k (f : File) :
  everywhere (built dir_name) dir = true ->
  inherited k = false ->
  fname f = k ->
  everywhere (built dir_name) (with_content dir (set (dcontent dir) k (EFile f))) = true.
Proof.
  intros Hdir Hk Hf. apply everywhere_iff in Hdir as [Hok Hbelow].
  apply everywhere_iff. rewrite dcontent_with_content. split.
  - apply built_set; [exact Hok|exact Hk|]. cbn. rewrite Hf. apply String.eqb_refl.
  - intros k0 d0 Hin. apply In_set in Hin as [[_ [=]]|Hin].
    exact (Hbelow k0 d0 Hin).
Qed.

Lemma everywhere_delete dir k :
  everywhere (built dir_name) dir = true ->
  everywhere (built dir_name) (with_content dir (delete (dcontent dir) k)) = true.
Proof.
  intros Hdir. apply everywhere_iff in Hdir as [Hok Hbelow].
  apply everywhere_iff. rewrite dcontent_with_content. split.
  - now apply built_delete.
  - intros k0 d0 Hin. exact (Hbelow k0 d0 (In_delete _ _ _ _ Hin)).
Qed.

Lemma create_loop_dname (m : Method) (new_dir : string -> Directory)
    (new_file : option (string -> File)) (pe r : bool) (segments : list string) dir :
  dname (snd (create_loop m new_dir new_file pe r segments dir)) = dname dir.
Proof.
  destruct segments as [|s rest]; [reflexivity|].
  cbn [create_loop]; cbv zeta.
  destruct (has_property (dcontent dir) s); cbn [negb].
  - destruct (get (dcontent dir) s) as [| |[f|d]|]; try reflexivity.
    now destruct (create_loop m new_dir new_file pe r rest d).
  - destruct r; [|reflexivity].
    destruct new_file as [file|]; [destruct (isLast rest); [reflexivity|]|];
      rewrite dcontent_with_content, get_set;
      now destruct (create_loop m new_dir _ pe true rest (new_dir s)).
Qed.

Variable m : Method.
Variable new_dir : string -> Directory.
Hypothesis new_dir_empty : forall k, dcontent (new_dir k) = [].
Hypothesis new_dir_made : forall k, made_as dir_name k (EDirectory (new_dir k)) = true.

Lemma new_dir_built k : everywhere (built dir_name) (new_dir k) = true.
Proof.
  apply everywhere_iff. rewrite new_dir_empty. split; [reflexivity|].
  intros k0 d0 [].
Qed.

Lemma create_loop_built (new_file : option (string -> File)) (pe r : bool)
    (segments : list string) :
  (forall file k, new_file = Some file -> fname (file k) = k) ->
  forall dir,
    everywhere (built dir_name) dir = true ->
    everywhere (built dir_name) (snd (create_loop m new_dir new_file pe r segments dir))
    = true.
Proof.
  intros Hfile.
  assert (Hnew : forall dir s (o : Outcome bool) (d' : Directory),
             everywhere (built dir_name) dir = true ->
             inherited s = false ->
             everywhere (built dir_name) d' = true ->
             dname d' = dname (new_dir s) ->
             everywhere (built dir_name)
               (snd (o, with_content
                          (with_content dir
                             (set (dcontent dir) s (EDirectory (new_dir s))))
                          (set (set (dcontent dir) s (EDirectory (new_dir s))) s
                             (EDirectory d')))) = true).
  { intros dir s o d' Hdir Hk Hd' Hname. cbn [snd]. rewrite set_set.
    change (with_content (with_content dir ?c1) ?c2) with (with_content dir c2).
    apply everywhere_put; auto.
    exact (made_as_same_name _ _ _ Hname (new_dir_made s)). }
  destruct new_file as [file|];
    (induction segments as [|s rest IH]; intros dir Hdir; [exact Hdir|]).
  all: cbn [create_loop]; cbv zeta.
  all: destruct (has_property (dcontent dir) s) eqn:Ehas; cbn [negb].
  1, 3: destruct (get (dcontent dir) s) as [| |[f|d]|] eqn:Eget; try exact Hdir.
  1, 2: pose proof (get_entry _ _ _ Eget) as Hown;
    pose proof (proj1 (everywhere_iff _ _) Hdir) as [Hok Hbelow];
    destruct (built_entry _ _ _ Hok Hown) as [Hk Hmade];
    pose proof (IH d (Hbelow s d (own_In _ _ _ Hown))) as Hd';
    match goal with
    | |- context [create_loop ?a1 ?a2 ?nf ?a3 ?a4 ?a5 ?a6] =>
        pose proof (create_loop_dname a1 a2 nf a3 a4 a5 a6) as Hname
    end;
    destruct (create_loop m new_dir _ pe r rest d) as [o d']; cbn [snd] in *;
    apply everywhere_put; auto; exact (made_as_same_name _ _ _ Hname Hmade).
  all: destruct r; [|exact Hdir].
  all: unfold has_property in Ehas.
  all: destruct (own (dcontent dir) s); [discriminate|].
  1: destruct (isLast rest);
    [cbn [snd]; apply everywhere_put_file; auto; now apply (Hfile file)|].
  all: rewrite dcontent_with_content, get_set.
  all: pose proof (IH (new_dir s) (new_dir_built s)) as Hd'.
  all: match goal with
       | |- context [create_loop ?a1 ?a2 ?nf ?a3 ?a4 ?a5 ?a6] =>
           pose proof (create_loop_dname a1 a2 nf a3 a4 a5 a6) as Hname
       end.
  all: destruct (create_loop m new_dir _ pe true rest (new_dir s)) as [o d'].
  all: now apply Hnew.
Qed.

Lemma remove_loop_built (pe : bool) (segments : list string) :
  forall dir,
    everywhere (built dir_name) dir = true ->
    everywhere (built dir_name) (snd (remove_loop pe segments dir)) = true.
Proof.
  induction segments as [|s rest IH]; intros dir Hdir; [exact Hdir|].
  cbn [remove_loop]; cbv zeta.
  destruct (has_property (dcontent dir) s); cbn [negb]; [|exact Hdir].
  destruct (get (dcontent dir) s) as [| |[f|d]|] eqn:Eget; try exact Hdir;
    destruct (isLast rest); try exact Hdir;
    try (cbn [snd]; now apply everywhere_delete).
  pose proof (get_entry _ _ _ Eget) as Hown.
  pose proof (proj1 (everywhere_iff _ _) Hdir) as [Hok Hbelow].
  destruct (built_entry _ _ _ Hok Hown) as [Hk Hmade].
  pose proof (IH d (Hbelow s d (own_In _ _ _ Hown))) as Hd'.
  destruct (remove_loop_root pe rest d) as [Hname _].
  destruct (remove_loop pe rest d) as [o d']. cbn [snd] in *.
  apply everywhere_put; auto. exact (made_as_same_name _ _ _ Hname Hmade).
Qed.

End Built.

(** X17. The trees of [src/index.ts] are well built, and stay so: in a new
    store, and after any sequence of calls on a store where it holds, every
    content object has unique keys, none of which is a property name of
    [Object.prototype], every File carries as its name the key it is stored
    under, and no Directory has a name. *)
Theorem index_trees_are_well_built (options : option MiniFSOptions)
    (calls : list Call) this :
  everywhere (built (fun _ => None)) (files (constructor options : MiniFS)) = true
  /\ (everywhere (built (fun _ => None)) (files this) = true ->
      everywhere (built (fun _ => None)) (files (after_all calls this)) = true).
Proof.
  split; [reflexivity|].
  revert this. unfold after_all.
  induction calls as [|call calls IH]; intros this Hthis; [exact Hthis|].
  cbn [fold_left]. apply IH.
  destruct call as [p o|p o|p o|p content o|p|]; cbn [after].
  - unfold createDirectory. rewrite createDirectory_loop_shape.
    pose proof (create_loop_built (fun _ => None) MiniFS_createDirectory
                  (fun _ => new_Directory None) (fun _ => eq_refl) (fun _ => eq_refl)
                  None (preferErrors this) (get_recursive o) (pathAsSegments p)
                  ltac:(discriminate) (files this) Hthis) as H.
    now destruct (create_loop _ _ _ _ _ _ _).
  - now destruct (reads_leave_the_store this p o) as [-> _].
  - now destruct (reads_leave_the_store this p o) as [_ ->].
  - unfold writeFile. rewrite writeFile_loop_shape.
    pose proof (create_loop_built (fun _ => None) MiniFS_writeFile
                  (fun _ => new_Directory None) (fun _ => eq_refl) (fun _ => eq_refl)
                  (Some (fun name => new_File name content))
                  (preferErrors this) (get_recursive o) (pathAsSegments p)
                  ltac:(now intros file k [= <-]) (files this) Hthis) as H.
    now destruct (create_loop _ _ _ _ _ _ _).
  - unfold remove.
    pose proof (remove_loop_built (fun _ => None) (preferErrors this)
                  (pathAsSegments p) (files this) Hthis) as H.
    now destruct (remove_loop _ _ _).
  - exact Hthis.
Qed.

(** X18. The trees of [part_000] are well built, and stay so under
    [createDirectory], [writeFile] and [remove]: besides unique keys, none
    of them inherited, every File and every Directory carries as its name
    the key it is stored under. *)
Theorem part000_trees_are_well_built (options : option MiniFSOptions)
    (calls : list Call000) this :
  everywhere (built Some) (files (Part000.constructor options : MiniFS)) = true
  /\ (everywhere (built Some) (files this) = true ->
      everywhere (built Some) (files (after_all000 calls this)) = true).
Proof.
  split; [reflexivity|].
  revert this. unfold after_all000.
  induction calls as [|call calls IH]; intros this Hthis; [exact Hthis|].
  cbn [fold_left]. apply IH.
  destruct call as [p o|p content o|p]; cbn [after000].
  - unfold Part000.createDirectory. rewrite createDirectory000_loop_shape.
    pose proof (create_loop_built Some MiniFS_createDirectory
                  (fun name => new_Directory (Some name)) (fun _ => eq_refl)
                  (fun k => String.eqb_refl k)
                  None (preferErrors this) (get_recursive o) (pathAsSegments p)
                  ltac:(discriminate) (files this) Hthis) as H.
    now destruct (create_loop _ _ _ _ _ _ _).
  - unfold Part000.writeFile, Part000._writeFile. rewrite _writeFile_loop_shape.
    match goal with
    | |- context [create_loop ?a1 ?a2 (Some ?f) ?a3 ?a4 ?a5 ?a6] =>
        pose proof (create_loop_built Some a1 a2 (fun _ => eq_refl)
                      (fun k => String.eqb_refl k) (Some f) a3 a4 a5
                      ltac:(now intros file k [= <-]) a6 Hthis) as H
    end.
    now destruct (create_loop _ _ _ _ _ _ _).
  - unfold remove.
    pose proof (remove_loop_built Some (preferErrors this)
                  (pathAsSegments p) (files this) Hthis) as H.
    now destruct (remove_loop _ _ _).
Qed.

(** ** [part_000] and [src/index.ts], side by side *)

Lemma forget_names_content dir :
  dcontent (forget_names dir)
  = map (fun p => (fst p, forget_names_entry (snd p))) (dcontent dir).
Proof.
  destruct dir as [n c x]. cbn [forget_names dcontent].
  induction c as [|[k [f|d]] c' IH]; [reflexivity| |]; cbn [map fst snd]; now rewrite IH.
Qed.

Lemma forget_names_with_content dir c :
  forget_names (with_content dir c)
  = with_content (forget_names dir)
      (map (fun p => (fst p, forget_names_entry (snd p))) c).
Proof.
  pose proof (forget_names_content (with_content dir c)) as H.
  destruct dir as [n c0 x]. unfold with_content in *. cbn [dname ddata] in *.
  cbn [forget_names dname ddata dcontent] in *. now rewrite H.
Qed.

Lemma own_forget c k :
  own (map (fun p => (fst p, forget_names_entry (snd p))) c) k
  = option_map forget_names_entry (own c k).
Proof.
  induction c as [|[k0 e0] c' IH]; [reflexivity|]. cbn [map own fst snd].
  now destruct (String.eqb k0 k).
Qed.

Lemma set_forget c k e :
  map (fun p => (fst p, forget_names_entry (snd p))) (set c k e)
  = set (map (fun p => (fst p, forget_names_entry (snd p))) c) k (forget_names_entry e).
Proof.
  induction c as [|[k0 e0] c' IH]; [reflexivity|]. cbn [map set fst snd].
  destruct (String.eqb k0 k); cbn [map fst snd]; [reflexivity|]. now rewrite IH.
Qed.

Lemma delete_forget c k :
  map (fun p => (fst p, forget_names_entry (snd p))) (delete c k)
  = delete (map (fun p => (fst p, forget_names_entry (snd p))) c) k.
Proof.
  unfold delete.
  induction c as [|[k0 e0] c' IH]; [reflexivity|]. cbn [map filter fst snd].
  destruct (negb (String.eqb k0 k)); cbn [map fst snd]; now rewrite IH.
Qed.

Lemma has_property_forget dir k :
  has_property (dcontent (forget_names dir)) k = has_property (dcontent dir) k.
Proof.
  unfold has_property. rewrite forget_names_content, own_forget.
  now destruct (own (dcontent dir) k).
Qed.

Lemma get_forget dir k :
  get (dcontent (forget_names dir)) k
  = match get (dcontent dir) k with
    | VEntry e => VEntry (forget_names_entry e)
    | v => v
    end.
Proof.
  unfold get. rewrite forget_names_content, own_forget.
  destruct (own (dcontent dir) k); [reflexivity|]. now destruct (inherited k).
Qed.

Lemma with_method_fail {A : Type} (m m' : Method) (pe : bool) x s (a : A) :
  with_method m' (fail pe m x s a) = fail pe m' x s a.
Proof. unfold fail. now destruct pe. Qed.

Lemma with_method_off_tree (m' : Method) (rest : list string) :
  with_method m' (off_tree rest) = off_tree rest.
Proof. now destruct rest. Qed.

(** A creating walk of [part_000] and the walk of [src/index.ts] on the tree
    without names go the same way. *)
Lemma create_loop_forget (m m' : Method) (new_dir : string -> Directory)
    (new_file : option (string -> File)) (pe r : bool)
    (new_dir_unnamed : forall k, forget_names (new_dir k) = new_Directory None)
    (segments : list string) :
  forall dir,
    create_loop m' (fun _ => new_Directory None) new_file pe r segments
      (forget_names dir)
    = (with_method m' (fst (create_loop m new_dir new_file pe r segments dir)),
       forget_names (snd (create_loop m new_dir new_file pe r segments dir))).
Proof.
  set (unnamed := fun _ : string => new_Directory None).
  destruct new_file as [file|];
    (induction segments as [|s rest IH]; intros dir; [reflexivity|]).
  all: cbn [create_loop]; cbv zeta.
  all: change (unnamed s) with (@new_Directory TFileContent TData None).
  all: rewrite has_property_forget, get_forget.
  all: destruct (has_property (dcontent dir) s); cbn [negb].
  1, 3: destruct (get (dcontent dir) s) as [| |[f|d]|]; cbn [forget_names_entry fst snd];
    rewrite ?with_method_fail, ?with_method_off_tree; try reflexivity;
    rewrite IH; destruct (create_loop m new_dir _ pe r rest d) as [o d'];
    cbn [fst snd];
    now rewrite forget_names_with_content, set_forget, forget_names_content.
  all: destruct r; [|cbn [fst snd]; now rewrite with_method_fail].
  1: destruct (isLast rest);
    [cbn [fst snd];
     now rewrite forget_names_with_content, set_forget, forget_names_content|].
  all: rewrite !dcontent_with_content, !get_set.
  all: rewrite <- (new_dir_unnamed s), IH.
  all: destruct (create_loop m new_dir _ pe true rest (new_dir s)) as [o d'].
  all: cbn [fst snd].
  all: rewrite !forget_names_with_content, !set_forget, forget_names_content.
  all: cbn [forget_names_entry]; now rewrite (new_dir_unnamed s).
Qed.

Lemma remove_loop_forget (pe : bool) (segments : list string) :
  forall dir,
    remove_loop pe segments (forget_names dir)
    = (fst (remove_loop pe segments dir), forget_names (snd (remove_loop pe segments dir))).
Proof.
  induction segments as [|s rest IH]; intros dir; [reflexivity|].
  cbn [remove_loop]; cbv zeta. rewrite has_property_forget, get_forget.
  destruct (has_property (dcontent dir) s); cbn [negb]; [|reflexivity].
  destruct (get (dcontent dir) s) as [| |[f|d]|]; cbn [forget_names_entry fst snd];
    try reflexivity;
    destruct (isLast rest); cbn [fst snd]; try reflexivity;
    try (now rewrite forget_names_with_content, delete_forget, forget_names_content).
  rewrite IH. destruct (remove_loop pe rest d) as [o d']. cbn [fst snd].
  now rewrite forget_names_with_content, set_forget, forget_names_content.
Qed.

Lemma create_loop_method (m : Method) (new_dir : string -> Directory)
    (new_file : option (string -> File)) (pe r : bool) (segments : list string) :
  forall dir,
    with_method m (fst (create_loop m new_dir new_file pe r segments dir))
    = fst (create_loop m new_dir new_file pe r segments dir).
Proof.
  destruct new_file as [file|];
    (induction segments as [|s rest IH]; intros dir; [reflexivity|]).
  all: cbn [create_loop]; cbv zeta.
  all: destruct (has_property (dcontent dir) s); cbn [negb].
  1, 3: destruct (get (dcontent dir) s) as [| |[f|d]|]; cbn [fst snd];
    rewrite ?with_method_fail, ?with_method_off_tree; try reflexivity;
    specialize (IH d); destruct (create_loop m new_dir _ pe r rest d); exact IH.
  all: destruct r; [|cbn [fst snd]; now rewrite with_method_fail].
  1: destruct (isLast rest); [reflexivity|].
  all: rewrite !dcontent_with_content, !get_set.
  all: specialize (IH (new_dir s)).
  all: destruct (create_loop m new_dir _ pe true rest (new_dir s)); exact IH.
Qed.

(** X19. [part_000] is [src/index.ts] up to the names of directories and of
    the method in the messages. Forgetting the directory names turns a new
    store of [part_000] into a new store of [src/index.ts], commutes with
    [createDirectory], [writeFile] and [remove] -- same outcome, except that
    an error of [writeFile] names [_writeFile] in [part_000] --, and so with
    every sequence of such calls. *)
Theorem part000_is_index_up_to_names (options : option MiniFSOptions) this path
    (content : Content) (write_options : option WriteOptions) (calls : list Call000) :
  forget_names_store (Part000.constructor options : MiniFS) = constructor options
  /\ createDirectory path write_options (forget_names_store this)
     = (fst (Part000.createDirectory path write_options this),
        forget_names_store (snd (Part000.createDirectory path write_options this)))
  /\ writeFile path content write_options (forget_names_store this)
     = (with_method MiniFS_writeFile
          (fst (Part000.writeFile path content write_options this)),
        forget_names_store (snd (Part000.writeFile path content write_options this)))
  /\ remove path (forget_names_store this)
     = (fst (remove path this), forget_names_store (snd (remove path this)))
  /\ after_all (map as_index_call calls) (forget_names_store this)
     = forget_names_store (after_all000 calls this).
Proof.
  assert (Hc : forall this p o,
             createDirectory p o (forget_names_store this)
             = (fst (Part000.createDirectory p o this),
                forget_names_store (snd (Part000.createDirectory p o this)))).
  { intros t p o. unfold createDirectory, Part000.createDirectory, forget_names_store.
    cbn [files preferErrors].
    rewrite createDirectory_loop_shape, createDirectory000_loop_shape.
    rewrite (create_loop_forget MiniFS_createDirectory MiniFS_createDirectory
               (fun name => new_Directory (Some name)) None _ _ (fun _ => eq_refl)).
    rewrite create_loop_method.
    now destruct (create_loop _ _ _ _ _ _ (files t)). }
  assert (Hw : forall this p (x : Content) o,
             writeFile p x o (forget_names_store this)
             = (with_method MiniFS_writeFile (fst (Part000.writeFile p x o this)),
                forget_names_store (snd (Part000.writeFile p x o this)))).
  { intros t p x o.
    unfold writeFile, Part000.writeFile, Part000._writeFile, forget_names_store.
    cbn [files preferErrors].
    rewrite writeFile_loop_shape, _writeFile_loop_shape.
    change (fun name : string =>
              (fun file : File => mkFile (fname file) x (fdata file))
                (new_File name Undefined))
      with (fun name : string => @new_File TFileContent TData name x).
    rewrite (create_loop_forget MiniFS__writeFile MiniFS_writeFile
               (fun name => new_Directory (Some name))
               (Some (fun name => new_File name x)) _ _ (fun _ => eq_refl)).
    now destruct (create_loop _ _ _ _ _ _ (files t)). }
  assert (Hr : forall this p,
             remove p (forget_names_store this)
             = (fst (remove p this), forget_names_store (snd (remove p this)))).
  { intros t p. unfold remove, forget_names_store. cbn [files preferErrors].
    rewrite remove_loop_forget. now destruct (remove_loop _ _ (files t)). }
  repeat split; auto.
  revert this. unfold after_all, after_all000.
  induction calls as [|call calls IH]; intros this; [reflexivity|].
  cbn [map fold_left]. rewrite <- IH. f_equal.
  destruct call as [p o|p x o|p]; cbn [as_index_call after after000].
  - now rewrite Hc.
  - now rewrite Hw.
  - now rewrite Hr.
Qed.

(** ** The callback of [part_000] *)

Lemma creatable_content (segments : list string) (d1 d2 : Directory) :
  dcontent d1 = dcontent d2 -> creatable segments d1 = creatable segments d2.
Proof.
  destruct segments as [|s rest]; [reflexivity|]. cbn [creatable]. now intros ->.
Qed.

Lemma create_loop_creatable (m : Method) (new_dir : string -> Directory)
    (file : string -> File) (pe : bool)
    (new_dir_empty : forall k, dcontent (new_dir k) = [])
    (segments : list string) :
  forall dir,
    creatable segments dir = true ->
    exists dir',
      create_loop m new_dir (Some file) pe true segments dir = (Return true, dir')
      /\ find segments dir' = Some (EFile (file (last segments ""))).
Proof.
  induction segments as [|s rest IH]; intros dir Hc; [discriminate|].
  cbn [creatable] in Hc. cbn [create_loop]; cbv zeta.
  destruct rest as [|s2 rest2].
  - cbn [isLast] in *. rewrite Hc. eexists. split; [reflexivity|].
    cbn [find isLast last]. now rewrite dcontent_with_content, own_set.
  - cbn [isLast] in *. remember (s2 :: rest2) as rest eqn:Erest.
    assert (Hlast : last (s :: rest) "" = last rest "") by now rewrite Erest.
    assert (Hnot : isLast rest = false) by now rewrite Erest.
    rewrite Hlast.
    destruct (get (dcontent dir) s) as [| |[f|d]|] eqn:Eg; try discriminate.
    + rewrite (get_undefined _ _ Eg). cbn [negb].
      rewrite dcontent_with_content, get_set.
      rewrite (creatable_content rest _ (new_dir s)) in Hc
        by now rewrite new_dir_empty.
      destruct (IH _ Hc) as (d' & Hrun & Hfind). rewrite Hrun.
      eexists. split; [reflexivity|].
      cbn [find]. now rewrite dcontent_with_content, own_set, Hnot.
    + rewrite (own_has_property _ _ _ (get_entry _ _ _ Eg)). cbn [negb].
      destruct (IH _ Hc) as (d' & Hrun & Hfind). rewrite Hrun.
      eexists. split; [reflexivity|].
      cbn [find]. now rewrite dcontent_with_content, own_set, Hnot.
Qed.

(** X20. [writeFileWithCallback] of [part_000] at a path where a new file is
    made (see [creatable]): the callback is run once, on a new [File] named
    by the last segment and without content, and what it makes of that file
    is the entry the path names afterwards; the call returns [true]. With
    the callback of [writeFile], the [readFile] that follows returns the
    content written, unless it is [undefined] or [null]. *)
Theorem writeFileWithCallback_makes_the_file this path
    (callback : Part000.WriteCallback) (content : Content) :
  creatable (pathAsSegments path) (files this) = true ->
  fst (Part000.writeFileWithCallback path callback None this) = Return true
  /\ find (pathAsSegments path)
          (files (snd (Part000.writeFileWithCallback path callback None this)))
     = Some (EFile (callback (new_File (last (pathAsSegments path) "") Undefined)))
  /\ fst (Part000.writeFile path content None this) = Return true
  /\ fst (readFile path None (snd (Part000.writeFile path content None this)))
     = (if eq_undefined content
        then fail (preferErrors this) MiniFS_readFile has_no_content (render path)
                  RF_null
        else Return (RF_content content)).
Proof.
  intros Hc.
  unfold Part000.writeFileWithCallback, Part000.writeFile, Part000._writeFile.
  cbn [get_recursive]. rewrite !_writeFile_loop_shape.
  destruct (create_loop_creatable MiniFS__writeFile
              (fun name => new_Directory (Some name))
              (fun name => callback (new_File name Undefined))
              (preferErrors this) (fun _ => eq_refl) _ _ Hc) as (d1 & -> & Hf1).
  destruct (create_loop_creatable MiniFS__writeFile
              (fun name => new_Directory (Some name))
              (fun name =>
                 (fun file : File => mkFile (fname file) content (fdata file))
                   (new_File name Undefined))
              (preferErrors this) (fun _ => eq_refl) _ _ Hc) as (d2 & -> & Hf2).
  cbn [fst snd files]. repeat split; [exact Hf1|].
  destruct (reading_what_is_there (with_files this d2) path None _ Hf2) as [_ Hrf].
  rewrite Hrf. cbn. now destruct (eq_undefined content).
Qed.

End More.

(** ** The further properties on small stores *)

(** "a/b" is made in a new store, then asked for again without [recursive]. *)
Lemma createDirectory_again_witness :
  createDirectory (PString "a/b") (Some {| recursive := Some false |})
    (snd (createDirectory (PString "a/b") None fresh))
  = (Return true, snd (createDirectory (PString "a/b") None fresh)).
Proof.
  exact (createDirectory_again fresh (PString "a/b") None
           (Some {| recursive := Some false |}) eq_refl).
Defined.

(** A store that prefers errors is asked for "nope". *)
Lemma readers_never_throw_does_not_exist_witness :
  fst (readDirectory (PString "nope") None (with_file fresh_errors))
  <> Throw (mkError MiniFS_readDirectory does_not_exist "nope")
  /\ fst (readFile (PString "nope") None (with_file fresh_errors))
     <> Throw (mkError MiniFS_readFile does_not_exist "nope").
Proof.
  exact (readers_never_throw_does_not_exist (with_file fresh_errors) (PString "nope")
           None "nope" eq_refl).
Defined.

(** The file "a/b.txt" is read both ways. *)
Lemma reading_what_is_there_witness :
  fst (readDirectory (PString "a/b.txt") None (with_nested_file fresh))
  = Return RD_null
  /\ fst (readFile (PString "a/b.txt") None (with_nested_file fresh))
     = Return (RF_content (Payload "c")).
Proof.
  exact (reading_what_is_there (with_nested_file fresh) (PString "a/b.txt") None
           (EFile (new_File "b.txt" (Payload "c"))) eq_refl).
Defined.

(** "nope/x" names nothing in a store that holds "f". *)
Lemma reading_what_is_not_there_witness :
  exists x subject,
    fst (readDirectory (PString "nope/x") None (with_file fresh))
    = (if preferErrors (with_file fresh)
       then Throw (mkError MiniFS_readEntry x subject)
       else Return RD_null)
    /\ fst (readFile (PString "nope/x") None (with_file fresh))
       = (if preferErrors (with_file fresh)
          then Throw (mkError MiniFS_readEntry x subject)
          else Return RF_null).
Proof.
  exact (reading_what_is_not_there (with_file fresh) (PString "nope/x") None
           ltac:(discriminate) eq_refl eq_refl).
Defined.

(** The file "a/b.txt" is kept when "a/c.txt" is made beside it. *)
Lemma creating_keeps_what_is_there_witness :
  exists e',
    find ["a"; "b.txt"]
         (files (snd (createDirectory (PString "a/c.txt") None (with_nested_file fresh))))
    = Some e'
    /\ kept (EFile (new_File "b.txt" (Payload "c"))) e'.
Proof.
  exact (proj1 (creating_keeps_what_is_there (with_nested_file fresh)
                  (PString "a/c.txt") (Payload "d") None set_both ["a"; "b.txt"]
                  (EFile (new_File "b.txt" (Payload "c"))) eq_refl)).
Defined.

(** Calls at "a/c.txt" leave "a/b.txt" alone. *)
Lemma calls_leave_other_paths_alone_witness :
  find (["a"] ++ "b.txt" :: [])
       (files (snd (createDirectory (PString "a/c.txt") None (with_nested_file fresh))))
  = find (["a"] ++ "b.txt" :: []) (files (with_nested_file fresh))
  /\ find (["a"] ++ "b.txt" :: [])
          (files (snd (writeFile (PString "a/c.txt") (Payload "d") None
                         (with_nested_file fresh))))
     = find (["a"] ++ "b.txt" :: []) (files (with_nested_file fresh))
  /\ find (["a"] ++ "b.txt" :: [])
          (files (snd (remove (PString "a/c.txt") (with_nested_file fresh))))
     = find (["a"] ++ "b.txt" :: []) (files (with_nested_file fresh)).
Proof.
  exact (calls_leave_other_paths_alone (with_nested_file fresh) (PString "a/c.txt")
           (Payload "d") None ["a"] "b.txt" "c.txt" [] []
           ltac:(discriminate) eq_refl).
Defined.

(** With the directory "a", the file "a/b.txt" is gone. *)
Lemma removed_is_gone_witness :
  find (pathAsSegments (PString "a") ++ ["b.txt"])
       (files (snd (remove (PString "a") (with_nested_file fresh))))
  = None.
Proof.
  exact (removed_is_gone (with_nested_file fresh) (PString "a") ["b.txt"]
           ltac:(discriminate) eq_refl).
Defined.

(** "x/y" is made in a store that holds "f", and is empty. *)
Lemma createDirectory_then_readDirectory_witness :
  fst (createDirectory (PString "x/y") None (with_file fresh)) = Return true
  /\ fst (readDirectory (PString "x/y") None
            (snd (createDirectory (PString "x/y") None (with_file fresh))))
     = Return (RD_names []).
Proof.
  exact (createDirectory_then_readDirectory (with_file fresh) (PString "x/y")
           ltac:(discriminate) eq_refl eq_refl).
Defined.

(** "toString" in a new store. *)
Lemma inherited_names_are_taken_witness :
  createDirectory (PString "toString") None fresh = (Return true, fresh)
  /\ writeFile (PString "toString") (Payload "c") None fresh = (Return true, fresh)
  /\ remove (PString "toString") fresh = (Return true, fresh)
  /\ fst (readFile (PString "toString") None fresh) = Return RF_null
  /\ fst (readDirectory (PString "toString") None fresh) = TypeError.
Proof.
  exact (inherited_names_are_taken fresh (PString "toString") "toString"
           (Payload "c") None eq_refl eq_refl eq_refl).
Defined.

(** The directory "a" lists "b.txt". *)
Lemma readDirectory_lists_the_entries_witness :
  exists names,
    fst (readDirectory (PString "a") None (with_nested_file fresh))
    = Return (RD_names names)
    /\ Permutation names ["b.txt"]
    /\ (true = true -> names = ["b.txt"]).
Proof.
  exact (readDirectory_lists_the_entries (with_nested_file fresh) (PString "a")
           (mkDirectory None [("b.txt", EFile (new_File "b.txt" (Payload "c")))] None)
           eq_refl).
Defined.

(** [walk] over a store that holds "a/b.txt" yields the file. *)
Lemma walk_yields_what_is_there_witness :
  (In (["a"; "b.txt"], EFile (new_File "b.txt" (Payload "c")))
      (fst (walk (with_nested_file fresh)))
   <-> find ["a"; "b.txt"] (files (with_nested_file fresh))
       = Some (EFile (new_File "b.txt" (Payload "c"))))
  /\ (In (["a"; "b.txt"], EFile (new_File "b.txt" (Payload "c")))
         (fst (walk (with_nested_file fresh))) ->
      fst (readEntry (PSegments ["a"; "b.txt"]) (with_nested_file fresh))
      = Return (VEntry (EFile (new_File "b.txt" (Payload "c"))))).
Proof.
  exact (walk_yields_what_is_there (with_nested_file fresh) ["a"; "b.txt"]
           (EFile (new_File "b.txt" (Payload "c"))) eq_refl).
Defined.

(** A store that holds "a/b.txt", after a write and a removal. *)
Lemma index_trees_are_well_built_witness :
  everywhere (built (fun _ => None))
    (files (after_all [Call_writeFile (PString "x/y") (Payload "z") None;
                       Call_remove (PString "a")]
              (with_nested_file fresh)))
  = true.
Proof.
  exact (proj2 (index_trees_are_well_built None
                  [Call_writeFile (PString "x/y") (Payload "z") None;
                   Call_remove (PString "a")]
                  (with_nested_file fresh)) eq_refl).
Defined.

(** The same in [part_000]. *)
Lemma part000_trees_are_well_built_witness :
  everywhere (built Some)
    (files (after_all000 [Call000_writeFile (PString "x/y") (Payload "z") None;
                          Call000_remove (PString "a")]
              (with_nested_file_000 fresh_000)))
  = true.
Proof.
  exact (proj2 (part000_trees_are_well_built None
                  [Call000_writeFile (PString "x/y") (Payload "z") None;
                   Call000_remove (PString "a")]
                  (with_nested_file_000 fresh_000)) eq_refl).
Defined.

(** "a/b.txt" is made in a new store of [part_000] by a callback that sets
    content and data. *)
Lemma writeFileWithCallback_makes_the_file_witness :
  fst (Part000.writeFileWithCallback (PString "a/b.txt") set_both None fresh_000)
  = Return true
  /\ find ["a"; "b.txt"]
          (files (snd (Part000.writeFileWithCallback (PString "a/b.txt") set_both None
                         fresh_000)))
     = Some (EFile (mkFile "b.txt" (Payload "new") (Some tt)))
  /\ fst (Part000.writeFile (PString "a/b.txt") (Payload "c") None fresh_000)
     = Return true
  /\ fst (readFile (PString "a/b.txt") None
            (snd (Part000.writeFile (PString "a/b.txt") (Payload "c") None fresh_000)))
     = Return (RF_content (Payload "c")).
Proof.
  exact (writeFileWithCallback_makes_the_file fresh_000 (PString "a/b.txt") set_both
           (Payload "c") eq_refl).
Defined.
